(** * PageRank (CS50 AI, 2.Uncertainty/pagerank/pagerank.py)

    A shallow embedding of [main], [crawl], [transition_model],
    [sample_pagerank] and [iterate_pagerank], the properties of the
    specification proved or refuted on it, and further properties of the
    code.

    Conventions of the embedding:
    - a Python [dict] is an association list in insertion order with the
      item assignment of Python ([d[k] = v] overwrites in place or appends);
    - a Python [set] is the list of its elements in iteration order;
    - Python exceptions are the left summand of [result];
    - Python floats are kept behind the interface [PyFloat], which has two
      instances: [binary64] (the IEEE 754 doubles Python computes with) and
      [exactQ] (exact rationals, the arithmetic the PageRank model is
      stated in). *)

From Stdlib Require Import List String ZArith QArith Qabs Qfield Lia Lqa Bool.
From Stdlib Require Import Permutation Sorted DecimalString.
From Stdlib Require Import PrimFloat Uint63 SpecFloat FloatOps.
Import ListNotations.

Close Scope Q_scope.
Local Open Scope string_scope.
Local Open Scope list_scope.

(* ================================================================= *)
(** ** Exceptions *)

Inductive exn : Set :=
  | KeyError
  | IndexError
  | ZeroDivisionError
  | ValueError
  | NotImplementedError
  | OSError
  | TypeError.

Definition result (A : Type) : Type := (exn + A)%type.

Definition ret {A : Type} (a : A) : result A := inr a.
Definition raise {A : Type} (e : exn) : result A := inl e.

Definition bind {A B : Type} (m : result A) (k : A -> result B) : result B :=
  match m with
  | inl e => inl e
  | inr a => k a
  end.

Notation "x <- m ;; k" := (bind m (fun x => k))
  (at level 61, m at next level, right associativity).

(** [for x in l: body] threading the variables the body assigns. *)
Fixpoint for_each {A St : Type} (l : list A) (body : St -> A -> result St)
  (s : St) : result St :=
  match l with
  | [] => ret s
  | x :: l' => s' <- body s x ;; for_each l' body s'
  end.

(** [for i in range(n)]: the body sees the index. *)
Fixpoint for_range {St : Type} (start count : nat)
  (body : St -> nat -> result St) (s : St) : result St :=
  match count with
  | O => ret s
  | S count' => s' <- body s start ;; for_range (S start) count' body s'
  end.

(* ================================================================= *)
(** ** Pages, sets and dicts *)

Definition Page : Set := string.

(** A Python set of pages: its elements, in iteration order. *)
Definition pyset : Set := list Page.

Definition mem (x : Page) (s : pyset) : bool := existsb (String.eqb x) s.

(** [set(l)] *)
Definition set_of_list (l : list Page) : pyset := nodup string_dec l.

(** [s - {x}] *)
Definition set_remove (s : pyset) (x : Page) : pyset :=
  filter (fun y => negb (String.eqb y x)) s.

Definition dict (V : Type) : Type := list (Page * V).

Definition keys {V : Type} (d : dict V) : list Page := map fst d.
Definition values {V : Type} (d : dict V) : list V := map snd d.

Fixpoint dict_get {V : Type} (d : dict V) (k : Page) : option V :=
  match d with
  | [] => None
  | (k', v) :: d' => if String.eqb k k' then Some v else dict_get d' k
  end.

(** [d[k] = v] *)
Fixpoint dict_set {V : Type} (d : dict V) (k : Page) (v : V) : dict V :=
  match d with
  | [] => [(k, v)]
  | (k', v') :: d' =>
      if String.eqb k k' then (k', v) :: d' else (k', v') :: dict_set d' k v
  end.

(** [k in d] *)
Definition dict_mem {V : Type} (d : dict V) (k : Page) : bool :=
  match dict_get d k with Some _ => true | None => false end.

(** [d[k]] *)
Definition getitem {V : Type} (d : dict V) (k : Page) : result V :=
  match dict_get d k with
  | Some v => ret v
  | None => raise KeyError
  end.

(** [len(x)] is a Python int. *)
Definition len {A : Type} (l : list A) : Z := Z.of_nat (List.length l).

(** The link graph: page -> set of pages. *)
Definition Corpus : Type := dict pyset.

(** Lists without repetition, decided. *)
Fixpoint nodupb (l : list Page) : bool :=
  match l with
  | [] => true
  | x :: l' => negb (mem x l') && nodupb l'
  end.

(** The Link Graph of the specification: a non-empty dict (distinct keys)
    whose values are sets (distinct elements) that hold no page outside the
    keys and never the page they belong to. *)
Definition link_set_ok (corpus : Corpus) (entry : Page * pyset) : bool :=
  nodupb (snd entry)
  && negb (mem (fst entry) (snd entry))
  && forallb (dict_mem corpus) (snd entry).

Definition link_graph_ok (corpus : Corpus) : bool :=
  match corpus with
  | [] => false
  | _ => nodupb (keys corpus) && forallb (link_set_ok corpus) corpus
  end.

(** No page links to itself. *)
Definition no_self_loop (pages : Corpus) : Prop :=
  forall p links, dict_get pages p = Some links -> ~ In p links.

(** The links of page [p] stay inside the pages [ks]. *)
Definition links_within (ks : list Page) (pages : Corpus) (p : Page) : Prop :=
  forall links, dict_get pages p = Some links -> incl links ks.

Definition Zsum (l : list Z) : Z := fold_right Z.add 0%Z l.
Definition Qsum (l : list Q) : Q := fold_right Qplus 0%Q l.

(* ================================================================= *)
(** ** Floating-point interface *)

Class PyFloat (num : Type) : Type := {
  of_int : Z -> num;            (* float(i) *)
  fadd : num -> num -> num;
  fsub : num -> num -> num;
  fmul : num -> num -> num;
  fdiv : num -> num -> num;     (* divisor known to be non-zero *)
  flt : num -> num -> bool;
  fle : num -> num -> bool;
  isfinite : num -> bool
}.

(** IEEE 754 binary64, as CPython's float. [of_int] is exact below 2^53 and
    rounds to nearest below 2^63, which covers every length and count a
    program can hold in memory. *)
Definition float_of_Z (z : Z) : float :=
  if (z <? 0)%Z
  then PrimFloat.opp (PrimFloat.of_uint63 (Uint63.of_Z (- z)))
  else PrimFloat.of_uint63 (Uint63.of_Z z).

#[export] Instance binary64 : PyFloat float := {
  of_int := float_of_Z;
  fadd := PrimFloat.add;
  fsub := PrimFloat.sub;
  fmul := PrimFloat.mul;
  fdiv := PrimFloat.div;
  flt := PrimFloat.ltb;
  fle := PrimFloat.leb;
  isfinite := PrimFloat.is_finite
}.

(** Exact rational arithmetic. *)
#[export] Instance exactQ : PyFloat Q := {
  of_int := inject_Z;
  fadd := Qplus;
  fsub := Qminus;
  fmul := Qmult;
  fdiv := Qdiv;
  flt := fun x y => negb (Qle_bool y x);
  fle := Qle_bool;
  isfinite := fun _ => true
}.


Section Program.

Context {num : Type} {F : PyFloat num}.

(** [a / b] on two ints: the correctly rounded quotient, which is the
    quotient of the two doubles for operands below 2^53. *)
Definition truediv_ii (a b : Z) : result num :=
  if (b =? 0)%Z then raise ZeroDivisionError
  else ret (fdiv (of_int a) (of_int b)).

(** [x / b] on a float and an int *)
Definition truediv_fi (x : num) (b : Z) : result num :=
  if (b =? 0)%Z then raise ZeroDivisionError
  else ret (fdiv x (of_int b)).

(* ================================================================= *)
(** ** transition_model *)

Definition transition_model (corpus : Corpus) (page : Page)
  (damping_factor : num) : result (dict num) :=
  let probabilities : dict num := [] in
  links <- getitem corpus page ;;
  if (len links =? 0)%Z then
    for_each (keys corpus)
      (fun probabilities webpage =>
         p <- truediv_ii 1 (len corpus) ;;
         ret (dict_set probabilities webpage p))
      probabilities
  else
    prob_at_random <-
      truediv_fi (fsub (of_int 1) damping_factor) (len corpus) ;;
    probabilities <-
      for_each links
        (fun probabilities webpage =>
           q <- truediv_fi damping_factor (len links) ;;
           ret (dict_set probabilities webpage (fadd q prob_at_random)))
        probabilities ;;
    for_each (keys corpus)
      (fun probabilities webpage =>
         if negb (mem webpage links)
         then ret (dict_set probabilities webpage prob_at_random)
         else ret probabilities)
      probabilities.

(** The three probabilities of the specification, with the operations of
    the code: [1/N], [(1-d)/N] and [d/|L(p)| + (1-d)/N]. *)
Definition uniform_prob (corpus : Corpus) : num :=
  fdiv (of_int 1) (of_int (len corpus)).

Definition random_prob (corpus : Corpus) (d : num) : num :=
  fdiv (fsub (of_int 1) d) (of_int (len corpus)).

Definition linked_prob (corpus : Corpus) (links : pyset) (d : num) : num :=
  fadd (fdiv d (of_int (len links))) (random_prob corpus d).

(* ================================================================= *)
(** ** transition_model on a store of objects

    Python dicts are mutable objects that the caller and the callee share.
    The same function once more, on a store in which the corpus and every
    dict the function creates are objects behind a reference, with every
    read of [corpus] and every item assignment written out. *)

Inductive object : Type :=
  | OCorpus (c : Corpus)
  | ODist (d : dict num).

Definition store : Type := list object.
Definition ref : Set := nat.

Definition Run (A : Type) : Type := store -> store * result A.

Definition run_ret {A : Type} (a : A) : Run A := fun h => (h, ret a).

Definition run_lift {A : Type} (r : result A) : Run A := fun h => (h, r).

Definition run_bind {A B : Type} (m : Run A) (k : A -> Run B) : Run B :=
  fun h =>
    match m h with
    | (h', inl e) => (h', inl e)
    | (h', inr a) => k a h'
    end.

Fixpoint replace_nth (h : store) (r : ref) (o : object) : store :=
  match h, r with
  | [], _ => []
  | _ :: h', O => o :: h'
  | x :: h', S r' => x :: replace_nth h' r' o
  end.

(** [{}] *)
Definition new_dict : Run ref :=
  fun h => (h ++ [ODist []], ret (List.length h)).

(** The dict a reference to the corpus denotes. *)
Definition read_corpus (corpus : ref) : Run Corpus :=
  fun h =>
    match nth_error h corpus with
    | Some (OCorpus c) => (h, ret c)
    | _ => (h, raise TypeError)
    end.

(** [probabilities[k] = v] *)
Definition store_item (probabilities : ref) (k : Page) (v : num) : Run unit :=
  fun h =>
    match nth_error h probabilities with
    | Some (ODist d) =>
        (replace_nth h probabilities (ODist (dict_set d k v)), ret tt)
    | _ => (h, raise TypeError)
    end.

Fixpoint run_for_each {A : Type} (l : list A) (body : A -> Run unit)
  : Run unit :=
  match l with
  | [] => run_ret tt
  | x :: l' => run_bind (body x) (fun _ => run_for_each l' body)
  end.

(** [corpus[page]] *)
Definition corpus_item (corpus : ref) (page : Page) : Run pyset :=
  run_bind (read_corpus corpus) (fun c => run_lift (getitem c page)).

(** [len(corpus)] *)
Definition corpus_len (corpus : ref) : Run Z :=
  run_bind (read_corpus corpus) (fun c => run_ret (len c)).

(** the keys [for webpage in corpus] goes through *)
Definition corpus_keys (corpus : ref) : Run (list Page) :=
  run_bind (read_corpus corpus) (fun c => run_ret (keys c)).

Definition transition_model_store (corpus : ref) (page : Page)
  (damping_factor : num) : Run ref :=
  run_bind new_dict (fun probabilities =>
  run_bind (corpus_item corpus page) (fun links =>
  if (len links =? 0)%Z then
    run_bind (corpus_keys corpus) (fun webpages =>
    run_bind
      (run_for_each webpages (fun webpage =>
         run_bind (corpus_len corpus) (fun n =>
         run_bind (run_lift (truediv_ii 1 n)) (fun p =>
         store_item probabilities webpage p))))
      (fun _ => run_ret probabilities))
  else
    run_bind (corpus_len corpus) (fun n =>
    run_bind (run_lift (truediv_fi (fsub (of_int 1) damping_factor) n))
      (fun prob_at_random =>
    run_bind (corpus_item corpus page) (fun links =>
    run_bind
      (run_for_each links (fun webpage =>
         run_bind (corpus_item corpus page) (fun links =>
         run_bind (run_lift (truediv_fi damping_factor (len links))) (fun q =>
         store_item probabilities webpage (fadd q prob_at_random)))))
      (fun _ =>
    run_bind (corpus_keys corpus) (fun webpages =>
    run_bind
      (run_for_each webpages (fun webpage =>
         run_bind (corpus_item corpus page) (fun links =>
         if negb (mem webpage links)
         then store_item probabilities webpage prob_at_random
         else run_ret tt)))
      (fun _ => run_ret probabilities)))))))).

(** A computation on the store, run with the new dict [acc] as the last
    object after [h0], next to a pure function of that dict: same exception
    or same final dict, and only the new dict is written. *)
Definition simulates {A : Type} (h0 : store)
  (f : dict num -> result (dict num)) (g : Run A) (a : A) : Prop :=
  forall acc, exists acc',
    g (h0 ++ [ODist acc])
    = (h0 ++ [ODist acc'],
       match f acc with inl e => inl e | inr _ => ret a end)
    /\ forall r, f acc = ret r -> acc' = r.

(* ================================================================= *)
(** ** random.choices

    The library function the sampler draws with, as CPython defines it for
    [k = 1] and explicit [weights]: running sums of the weights, a check of
    their total, and a right bisection of [random() * total] over the
    running sums with the upper bound [len(population) - 1]. The argument
    [r] is the value [random()] returns for this draw. *)

Fixpoint accumulate_from (acc : num) (l : list num) : list num :=
  match l with
  | [] => []
  | w :: l' => let s := fadd acc w in s :: accumulate_from s l'
  end.

(** [list(itertools.accumulate(weights))] *)
Definition accumulate (weights : list num) : list num :=
  match weights with
  | [] => []
  | w :: l' => w :: accumulate_from w l'
  end.

(** [l[i]] for a non-negative index *)
Definition list_index {A : Type} (l : list A) (i : nat) : result A :=
  match nth_error l i with
  | Some x => ret x
  | None => raise IndexError
  end.

(** [l[-1]] *)
Definition list_last {A : Type} (l : list A) : result A :=
  match l with
  | [] => raise IndexError
  | _ => list_index l (List.length l - 1)
  end.

(** [while lo < hi: mid = (lo + hi) // 2; if x < a[mid]: hi = mid
    else: lo = mid + 1], with the fuel [hi - lo] that the loop cannot
    exceed. *)
Fixpoint bisect_loop (fuel : nat) (a : list num) (x : num) (lo hi : nat)
  : result nat :=
  match fuel with
  | O => ret lo
  | S fuel' =>
      if (lo <? hi)%nat then
        let mid := ((lo + hi) / 2)%nat in
        a_mid <- list_index a mid ;;
        if flt x a_mid then bisect_loop fuel' a x lo mid
        else bisect_loop fuel' a x (S mid) hi
      else ret lo
  end.

Definition bisect (a : list num) (x : num) (lo hi : nat) : result nat :=
  bisect_loop (hi - lo) a x lo hi.

Definition choices (population : list Page) (weights : list num) (r : num)
  : result Page :=
  let n := List.length population in
  let cum_weights := accumulate weights in
  if negb (List.length cum_weights =? n)%nat then raise ValueError else
  last_cum <- list_last cum_weights ;;
  let total := fadd last_cum (of_int 0) in
  if fle total (of_int 0) then raise ValueError else
  if negb (isfinite total) then raise ValueError else
  let hi := (n - 1)%nat in
  i <- bisect cum_weights (fmul r total) 0 hi ;;
  list_index population i.

(** The weights [random.choices] does not reject. *)
Definition choices_accepts (weights : list num) : bool :=
  match list_last (accumulate weights) with
  | inr last_cum =>
      let total := fadd last_cum (of_int 0) in
      negb (fle total (of_int 0)) && isfinite total
  | inl _ => false
  end.

(* ================================================================= *)
(** ** sample_pagerank

    [random i] is the value of the [i]-th call of [random.random()]; every
    draw consumes one call. [n] is a Python int. *)

Definition sample_pagerank (corpus : Corpus) (damping_factor : num) (n : Z)
  (random : nat -> num) : result (dict num) :=
  let visited : dict Z :=
    fold_left (fun visited webpage => dict_set visited webpage 0%Z)
      (keys corpus) [] in
  p <- truediv_ii 1 (len corpus) ;;
  let probabilities := repeat p (List.length corpus) in
  first_choice <- choices (keys corpus) probabilities (random O) ;;
  walk <-
    for_range 0 (Z.to_nat n)
      (fun (st : Page * dict Z) sample =>
         let (choice, visited) := st in
         prob <- transition_model corpus choice damping_factor ;;
         choice <- choices (keys prob) (values prob) (random (S sample)) ;;
         count <- getitem visited choice ;;
         ret (choice, dict_set visited choice (count + 1)%Z))
      (first_choice, visited) ;;
  let visited := snd walk in
  for_each (keys visited)
    (fun PageRank webpage =>
       count <- getitem visited webpage ;;
       rank <- truediv_ii count n ;;
       ret (dict_set PageRank webpage rank))
    [].

(** The rank the last loop of [sample_pagerank] stores for a counter:
    [visited[webpage] / n]. *)
Definition rank_of (n : Z) (entry : Page * Z) : Page * num :=
  (fst entry, fdiv (of_int (snd entry)) (of_int n)).

(** Every weight vector the sampler hands to [random.choices] on this
    graph is accepted: the uniform one of the first draw and the
    distribution of every page. *)
Definition draws_accepted (corpus : Corpus) (damping_factor : num) : bool :=
  match truediv_ii 1 (len corpus) with
  | inr p => choices_accepts (repeat p (List.length corpus))
  | inl _ => false
  end
  && forallb
       (fun page =>
          match transition_model corpus page damping_factor with
          | inr prob => choices_accepts (values prob)
          | inl _ => false
          end)
       (keys corpus).

(* ================================================================= *)
(** ** iterate_pagerank *)

Definition iterate_pagerank (corpus : Corpus) (damping_factor : num)
  : result (dict num) :=
  raise NotImplementedError.

End Program.

(* ================================================================= *)
(** ** crawl

    The directory is the list of its entries as [os.listdir] yields them,
    each with the text [open(...).read()] returns ([None] when opening or
    reading fails). [findall_links] stands for
    the call of [re.findall] that extracts the href targets of the anchors
    of [contents]. *)

Definition endswith (s suffix : string) : bool :=
  let n := String.length s in
  let m := String.length suffix in
  (m <=? n)%nat && String.eqb (substring (n - m) m s) suffix.

Section Crawl.

Variable findall_links : string -> list string.

Definition crawl (directory : list (string * option string)) : result Corpus :=
  pages <-
    for_each directory
      (fun (pages : Corpus) entry =>
         let (filename, file) := entry in
         if negb (endswith filename ".html") then ret pages
         else
           match file with
           | None => raise OSError
           | Some contents =>
               let links := findall_links contents in
               ret (dict_set pages filename
                      (set_remove (set_of_list links) filename))
           end)
      [] ;;
  for_each (keys pages)
    (fun (pages : Corpus) filename =>
       links <- getitem pages filename ;;
       ret (dict_set pages filename
              (filter (fun link => dict_mem pages link) links)))
    pages.

End Crawl.

(* ================================================================= *)
(** ** Concrete inputs *)

(** [DAMPING = 0.85], the double nearest to it. *)
Definition DAMPING : float := 0x1.b333333333333p-1%float.
Definition SAMPLES : Z := 10000.

Definition scenarioA : Corpus :=
  [("1.html", ["2.html"]); ("2.html", ["1.html"])].
Definition scenarioB : Corpus :=
  [("1.html", []); ("2.html", ["1.html"])].
Definition scenarioC : Corpus :=
  [("1.html", [])].

(** Three pages without links, and a walk of 35 steps that visits them
    8, 9 and 18 times. *)
Definition three_pages : Corpus :=
  [("1.html", []); ("2.html", []); ("3.html", [])].


(** A directory of two pages and a file that is not a page and cannot be
    read as text, with the links a scan of each page finds. *)
Definition example_directory : list (string * option string) :=
  [("a.html", Some "page a"); ("notes.bin", None); ("b.html", Some "page b")].

Definition example_findall (contents : string) : list string :=
  if String.eqb contents "page a"
  then ["b.html"; "a.html"; "gone.html"; "b.html"]
  else if String.eqb contents "page b" then ["a.html"]
  else [].

(** Three pages, each with a link, the first with no link to it. *)
Definition entry_graph : Corpus :=
  [("1.html", ["2.html"]); ("2.html", ["3.html"]); ("3.html", ["2.html"])].

(** The sum Python's left-to-right addition of floats computes. *)
Definition float_sum (l : list float) : float :=
  fold_left PrimFloat.add l 0%float.

(** The tolerance of the specification, [1e-9], and the test that a float
    sum is within it of 1.0. *)
Definition tolerance : float := PrimFloat.div 1 1000000000.

Definition sums_to_one (l : list float) : bool :=
  PrimFloat.leb (PrimFloat.abs (PrimFloat.sub (float_sum l) 1)) tolerance.


(* ================================================================= *)
(** ** main

    The command line is [sys.argv]; [listdir] gives, for a path, the
    entries [os.listdir] and [open(...).read()] yield for it ([None] when
    the directory cannot be listed); the program's standard output is the
    list of the lines printed so far; [format_4f] stands for the float
    formatting of the format specification [.4f]. The program ends by
    returning from [main], by [sys.exit], or by an uncaught exception. *)

Inductive outcome : Set :=
  | Finished
  | Exited (message : string)
  | Raised (e : exn).

Fixpoint insert_sorted (x : string) (l : list string) : list string :=
  match l with
  | [] => [x]
  | y :: l' => if String.leb x y then x :: l else y :: insert_sorted x l'
  end.

(** [sorted(d)] on a dict of strings: its keys in increasing order. *)
Definition sorted (l : list string) : list string :=
  fold_right insert_sorted [] l.

Section Main.

Variable findall_links : string -> list string.
Variable format_4f : float -> string.

(** [f"  {page}: {ranks[page]:.4f}"] *)
Definition rank_line (page : Page) (rank : float) : string :=
  "  " ++ page ++ ": " ++ format_4f rank.

(** [for page in sorted(ranks): print(...)], after the lines [out]. *)
Fixpoint print_ranks (ranks : dict float) (pages : list Page)
  (out : list string) : list string * result unit :=
  match pages with
  | [] => (out, ret tt)
  | page :: pages' =>
      match getitem ranks page with
      | inl e => (out, inl e)
      | inr rank => print_ranks ranks pages' (out ++ [rank_line page rank])
      end
  end.

Definition sampling_header : string :=
  "PageRank Results from Sampling (n = "
  ++ NilZero.string_of_int (Z.to_int SAMPLES) ++ ")".

Definition iteration_header : string := "PageRank Results from Iteration".

Definition usage : string := "Usage: python pagerank.py corpus".

Definition main (argv : list string)
  (listdir : string -> option (list (string * option string)))
  (random : nat -> float) : list string * outcome :=
  if negb (len argv =? 2)%Z then ([], Exited usage)
  else
    match
      directory <- list_index argv 1 ;;
      entries <- match listdir directory with
                 | Some entries => ret entries
                 | None => raise OSError
                 end ;;
      crawl findall_links entries
    with
    | inl e => ([], Raised e)
    | inr corpus =>
        match sample_pagerank corpus DAMPING SAMPLES random with
        | inl e => ([], Raised e)
        | inr ranks =>
            match print_ranks ranks (sorted (keys ranks)) [sampling_header] with
            | (out, inl e) => (out, Raised e)
            | (out, inr _) =>
                match iterate_pagerank corpus DAMPING with
                | inl e => (out, Raised e)
                | inr ranks =>
                    match
                      print_ranks ranks (sorted (keys ranks))
                        (out ++ [iteration_header])
                    with
                    | (out, inl e) => (out, Raised e)
                    | (out, inr _) => (out, Finished)
                    end
                end
            end
        end
    end.

End Main.


(* ================================================================= *)
(** ** Facts about dicts and sets *)

Lemma mem_In (x : Page) (s : pyset) : mem x s = true <-> In x s.
Proof.
  unfold mem. rewrite existsb_exists. split.
  - intros [y [Hy Heq]]. apply String.eqb_eq in Heq. now subst.
  - intros H. exists x. split; [assumption | apply String.eqb_refl].
Qed.

Lemma mem_not_In (x : Page) (s : pyset) : mem x s = false <-> ~ In x s.
Proof.
  rewrite <- mem_In. destruct (mem x s); split; congruence.
Qed.

Lemma nodupb_NoDup (l : list Page) : nodupb l = true <-> NoDup l.
Proof.
  induction l as [|x l IH]; simpl.
  - split; [constructor | reflexivity].
  - rewrite andb_true_iff, negb_true_iff, mem_not_In, IH. split.
    + intros [H1 H2]. now constructor.
    + intros H. inversion H. now split.
Qed.

Section DictFacts.

Context {V : Type}.
Implicit Types (d : dict V) (k q : Page) (v : V).

Lemma dict_get_set d k v q :
  dict_get (dict_set d k v) q = if String.eqb q k then Some v else dict_get d q.
Proof.
  induction d as [|[k' v'] d IH]; simpl.
  - destruct (String.eqb q k); reflexivity.
  - destruct (String.eqb k k') eqn:Ekk'; simpl.
    + apply String.eqb_eq in Ekk'. subst k'.
      destruct (String.eqb q k); reflexivity.
    + rewrite IH. destruct (String.eqb q k) eqn:Eqk; [|reflexivity].
      apply String.eqb_eq in Eqk. subst q. now rewrite Ekk'.
Qed.

Lemma dict_get_In d k : dict_get d k <> None <-> In k (keys d).
Proof.
  induction d as [|[k' v'] d IH]; simpl.
  - split; [congruence | tauto].
  - destruct (String.eqb k k') eqn:E.
    + apply String.eqb_eq in E. subst. split; [now left | congruence].
    + apply String.eqb_neq in E. rewrite IH. split; [now right|].
      intros [H|H]; [congruence | assumption].
Qed.

Lemma dict_get_None d k : dict_get d k = None <-> ~ In k (keys d).
Proof.
  rewrite <- dict_get_In. destruct (dict_get d k); split; intros H;
    try congruence.
  exfalso. apply H. discriminate.
Qed.

Lemma dict_get_Some_In d k v : dict_get d k = Some v -> In k (keys d).
Proof. intros H. apply dict_get_In. congruence. Qed.

Lemma dict_mem_In d k : dict_mem d k = true <-> In k (keys d).
Proof.
  unfold dict_mem. rewrite <- dict_get_In.
  destruct (dict_get d k); split; congruence.
Qed.

Lemma dict_set_fresh d k v : ~ In k (keys d) -> dict_set d k v = d ++ [(k, v)].
Proof.
  induction d as [|[k' v'] d IH]; simpl; intros H; [reflexivity|].
  destruct (String.eqb k k') eqn:E.
  - apply String.eqb_eq in E. subst. tauto.
  - rewrite IH by tauto. reflexivity.
Qed.

Lemma keys_dict_set_present d k v : In k (keys d) -> keys (dict_set d k v) = keys d.
Proof.
  induction d as [|[k' v'] d IH]; simpl; intros H; [tauto|].
  destruct (String.eqb k k') eqn:E; simpl; [reflexivity|].
  apply String.eqb_neq in E. f_equal. apply IH.
  destruct H as [H|H]; [congruence | assumption].
Qed.

Lemma keys_app d d' : keys (d ++ d') = keys d ++ keys d'.
Proof. apply map_app. Qed.

Lemma dict_get_map_const (f : Page -> V) (l : list Page) q :
  dict_get (map (fun k => (k, f k)) l) q = if mem q l then Some (f q) else None.
Proof.
  induction l as [|x l IH]; simpl; [reflexivity|].
  destruct (String.eqb q x) eqn:E; simpl.
  - apply String.eqb_eq in E. now subst.
  - exact IH.
Qed.

Lemma dict_get_app d d' q :
  dict_get (d ++ d') q =
  match dict_get d q with Some v => Some v | None => dict_get d' q end.
Proof.
  induction d as [|[k' v'] d IH]; simpl; [reflexivity|].
  destruct (String.eqb q k'); [reflexivity | exact IH].
Qed.

End DictFacts.

Lemma keys_map_pair {V : Type} (f : Page -> V) (l : list Page) :
  keys (map (fun k => (k, f k)) l) = l.
Proof.
  unfold keys. rewrite map_map. simpl. apply map_id.
Qed.

Lemma values_map_pair {V : Type} (f : Page -> V) (l : list Page) :
  values (map (fun k => (k, f k)) l) = map f l.
Proof.
  unfold values. rewrite map_map. reflexivity.
Qed.

(* ================================================================= *)
(** ** Facts about loops *)

Lemma filter_true {A : Type} (l : list A) : filter (fun _ => true) l = l.
Proof. induction l as [|x l IH]; simpl; [reflexivity | now rewrite IH]. Qed.

Lemma for_each_ext {A St : Type} (l : list A) (f g : St -> A -> result St) s :
  (forall s' x, In x l -> f s' x = g s' x) ->
  for_each l f s = for_each l g s.
Proof.
  revert s. induction l as [|x l IH]; intros s H; simpl; [reflexivity|].
  rewrite H by now left. destruct (g s x); simpl; [reflexivity|].
  apply IH. intros. apply H. now right.
Qed.

(** A loop that assigns the same value to the keys a test selects appends
    them in order, when they are new and distinct. *)
Lemma for_each_assign {V : Type} (test : Page -> bool) (v : V)
  (ks : list Page) (d : dict V) :
  NoDup ks ->
  (forall k, In k ks -> test k = true -> ~ In k (keys d)) ->
  for_each ks
    (fun acc w => if test w then ret (dict_set acc w v) else ret acc) d
  = ret (d ++ map (fun k => (k, v)) (filter test ks)).
Proof.
  revert d. induction ks as [|k ks IH]; intros d Hnd Hfresh; simpl.
  - now rewrite app_nil_r.
  - inversion Hnd as [|? ? Hk Hnd']; subst.
    destruct (test k) eqn:Et; simpl.
    + rewrite dict_set_fresh by (apply Hfresh; [now left | assumption]).
      rewrite IH; [now rewrite <- app_assoc | assumption |].
      intros k' Hin Ht. rewrite keys_app, in_app_iff. simpl.
      intros [H|[H|[]]]; [|congruence].
      revert H. apply Hfresh; [now right | assumption].
    + apply IH; [assumption|]. intros. apply Hfresh; [now right | assumption].
Qed.

Lemma for_each_assign_all {V : Type} (v : V) (ks : list Page) (d : dict V) :
  NoDup ks ->
  (forall k, In k ks -> ~ In k (keys d)) ->
  for_each ks (fun acc w => ret (dict_set acc w v)) d
  = ret (d ++ map (fun k => (k, v)) ks).
Proof.
  intros Hnd Hfresh.
  rewrite <- (filter_true ks) at 2.
  rewrite <- (for_each_assign (fun _ => true) v ks d Hnd).
  - reflexivity.
  - intros k Hin _. now apply Hfresh.
Qed.

(** The same loop, read through lookups; no distinctness is needed. *)
Lemma for_each_assign_get {V : Type} (test : Page -> bool) (v : V)
  (ks : list Page) (d : dict V) :
  exists d',
    for_each ks
      (fun acc w => if test w then ret (dict_set acc w v) else ret acc) d
    = ret d'
    /\ forall q, dict_get d' q =
                 if mem q ks && test q then Some v else dict_get d q.
Proof.
  revert d. induction ks as [|k ks IH]; intros d; simpl.
  - exists d. split; [reflexivity|]. intros q. reflexivity.
  - destruct (IH (if test k then dict_set d k v else d)) as [d' [Hrun Hget]].
    exists d'. split.
    + destruct (test k); simpl; exact Hrun.
    + intros q. rewrite Hget.
      destruct (String.eqb q k) eqn:E; simpl.
      * apply String.eqb_eq in E. subst q.
        destruct (test k) eqn:Et.
        -- rewrite dict_get_set, String.eqb_refl.
           destruct (mem k ks); reflexivity.
        -- now rewrite andb_false_r.
      * destruct (mem q ks && test q); [reflexivity|].
        destruct (test k); [|reflexivity].
        now rewrite dict_get_set, E.
Qed.

Lemma len_eqb_0 {A : Type} (l : list A) : (len l =? 0)%Z = true <-> l = [].
Proof.
  unfold len. destruct l; simpl; split; try reflexivity; try discriminate.
Qed.

Lemma len_nonempty {V : Type} (d : dict V) (k : Page) :
  In k (keys d) -> (len d =? 0)%Z = false.
Proof. destruct d; simpl; [tauto | reflexivity]. Qed.

(* ================================================================= *)
(** ** transition_model: the two rules *)

Section TransitionModel.

Context {num : Type} {F : PyFloat num}.
Implicit Types (corpus : Corpus) (page q : Page) (d : num) (links : pyset).

Lemma transition_model_dangling_eq corpus page d :
  NoDup (keys corpus) ->
  dict_get corpus page = Some [] ->
  transition_model corpus page d
  = ret (map (fun k => (k, uniform_prob corpus)) (keys corpus)).
Proof.
  intros Hnd Hget. unfold transition_model, getitem. rewrite Hget. simpl.
  pose proof (len_nonempty corpus page (dict_get_Some_In _ _ _ Hget)) as Hlen.
  rewrite for_each_ext with
    (g := fun acc w => ret (dict_set acc w (uniform_prob corpus))).
  - rewrite for_each_assign_all; [reflexivity | assumption |].
    intros k _. simpl. tauto.
  - intros s x _. unfold truediv_ii. rewrite Hlen. reflexivity.
Qed.

Lemma transition_model_linked_eq corpus page d links :
  NoDup (keys corpus) ->
  NoDup links ->
  dict_get corpus page = Some links ->
  links <> [] ->
  transition_model corpus page d
  = ret (map (fun k => (k, linked_prob corpus links d)) links
         ++ map (fun k => (k, random_prob corpus d))
              (filter (fun k => negb (mem k links)) (keys corpus))).
Proof.
  intros Hnd Hndl Hget Hne. unfold transition_model, getitem. rewrite Hget.
  simpl. pose proof (len_nonempty corpus page (dict_get_Some_In _ _ _ Hget)) as Hlen.
  destruct (len links =? 0)%Z eqn:El.
  { apply len_eqb_0 in El. contradiction. }
  unfold truediv_fi at 1. rewrite Hlen. simpl.
  rewrite for_each_ext with
    (g := fun acc w => ret (dict_set acc w (linked_prob corpus links d))).
  2:{ intros s x _. unfold truediv_fi. rewrite El. reflexivity. }
  rewrite for_each_assign_all; [| assumption | intros k _; simpl; tauto].
  simpl.
  apply for_each_assign; [assumption|].
  intros k _ Hk. rewrite keys_map_pair.
  apply negb_true_iff in Hk. now apply mem_not_In.
Qed.

(** The normal rule read through lookups: it needs no assumption on the
    order or distinctness of the keys. *)
Lemma transition_model_linked_get corpus page d links :
  dict_get corpus page = Some links ->
  links <> [] ->
  exists dist,
    transition_model corpus page d = ret dist
    /\ forall q,
         dict_get dist q =
         if mem q links then Some (linked_prob corpus links d)
         else if mem q (keys corpus) then Some (random_prob corpus d)
         else None.
Proof.
  intros Hget Hne. unfold transition_model, getitem. rewrite Hget. simpl.
  pose proof (len_nonempty corpus page (dict_get_Some_In _ _ _ Hget)) as Hlen.
  destruct (len links =? 0)%Z eqn:El.
  { apply len_eqb_0 in El. contradiction. }
  unfold truediv_fi at 1. rewrite Hlen. simpl.
  destruct (for_each_assign_get (fun _ => true) (linked_prob corpus links d)
              links []) as [d1 [Hrun1 Hget1]].
  rewrite for_each_ext with
    (g := fun acc w => ret (dict_set acc w (linked_prob corpus links d))).
  2:{ intros s x _. unfold truediv_fi. rewrite El. reflexivity. }
  simpl in Hrun1. rewrite Hrun1. simpl.
  destruct (for_each_assign_get (fun k => negb (mem k links))
              (random_prob corpus d) (keys corpus) d1) as [d2 [Hrun2 Hget2]].
  exists d2. split; [exact Hrun2|].
  intros q. rewrite Hget2, Hget1. simpl.
  destruct (mem q links), (mem q (keys corpus)); reflexivity.
Qed.

(** [transition_model] fails exactly on a page that is not a key, whatever
    the damping factor. *)
Lemma transition_model_returns corpus page d :
  In page (keys corpus) -> exists dist, transition_model corpus page d = ret dist.
Proof.
  intros Hin. destruct (dict_get corpus page) as [links|] eqn:Hget.
  - destruct links as [|l links].
    + unfold transition_model, getitem. rewrite Hget. simpl.
      pose proof (len_nonempty corpus page Hin) as Hlen.
      destruct (for_each_assign_get (fun _ => true) (uniform_prob corpus)
                  (keys corpus) []) as [d1 [Hrun1 _]].
      exists d1. simpl in Hrun1. rewrite <- Hrun1. apply for_each_ext.
      intros s x _. unfold truediv_ii. rewrite Hlen. reflexivity.
    + destruct (transition_model_linked_get corpus page d (l :: links) Hget)
        as [dist [Hrun _]]; [discriminate|].
      now exists dist.
  - apply dict_get_None in Hget. contradiction.
Qed.

Lemma transition_model_missing corpus page d :
  ~ In page (keys corpus) -> transition_model corpus page d = raise KeyError.
Proof.
  intros Hnin. apply dict_get_None in Hnin.
  unfold transition_model, getitem. now rewrite Hnin.
Qed.

End TransitionModel.

(* ================================================================= *)
(** ** The Link Graph invariant *)

Lemma dict_get_entry {V : Type} (d : dict V) (k : Page) (v : V) :
  dict_get d k = Some v -> In (k, v) d.
Proof.
  induction d as [|[k' v'] d IH]; simpl; [discriminate|].
  destruct (String.eqb k k') eqn:E.
  - apply String.eqb_eq in E. intros [= ->]. subst. now left.
  - intros H. right. now apply IH.
Qed.

Lemma link_graph_ok_keys (corpus : Corpus) :
  link_graph_ok corpus = true -> corpus <> [] /\ NoDup (keys corpus).
Proof.
  unfold link_graph_ok. destruct corpus as [|e corpus]; [discriminate|].
  intros H. apply andb_true_iff in H. destruct H as [H _].
  split; [discriminate | now apply nodupb_NoDup].
Qed.

Lemma link_graph_ok_links (corpus : Corpus) (page : Page) (links : pyset) :
  link_graph_ok corpus = true ->
  dict_get corpus page = Some links ->
  NoDup links /\ ~ In page links /\ incl links (keys corpus).
Proof.
  unfold link_graph_ok. destruct corpus as [|e corpus]; [discriminate|].
  intros H Hget. apply andb_true_iff in H. destruct H as [_ H].
  rewrite forallb_forall in H. specialize (H _ (dict_get_entry _ _ _ Hget)).
  unfold link_set_ok in H. simpl in H.
  apply andb_true_iff in H. destruct H as [H H3].
  apply andb_true_iff in H. destruct H as [H1 H2].
  split; [now apply nodupb_NoDup|].
  split; [apply mem_not_In; now apply negb_true_iff|].
  intros q Hq. rewrite forallb_forall in H3. apply dict_mem_In. now apply H3.
Qed.

(** The keys of the normal rule's result are the graph's keys, reordered. *)
Lemma links_then_rest_Permutation (links ks : list Page) :
  NoDup links -> NoDup ks -> incl links ks ->
  Permutation (links ++ filter (fun k => negb (mem k links)) ks) ks.
Proof.
  intros Hl Hk Hincl. apply NoDup_Permutation; [|assumption|].
  - apply NoDup_app; [assumption | now apply NoDup_filter |].
    intros x Hx Hf. apply filter_In in Hf. destruct Hf as [_ Hf].
    apply negb_true_iff, mem_not_In in Hf. contradiction.
  - intros x. rewrite in_app_iff, filter_In, negb_true_iff, mem_not_In.
    split.
    + intros [H|[H _]]; [now apply Hincl | assumption].
    + intros H. destruct (in_dec string_dec x links); [now left | now right].
Qed.

Section TransitionModelKeys.

Context {num : Type} {F : PyFloat num}.

(** On a Link Graph the result has the graph's pages as keys, each once,
    whatever the arithmetic. *)
Lemma transition_model_keys (corpus : Corpus) (page : Page) (d : num) :
  link_graph_ok corpus = true ->
  In page (keys corpus) ->
  exists dist,
    transition_model corpus page d = ret dist
    /\ Permutation (keys dist) (keys corpus).
Proof.
  intros Hok Hin. destruct (link_graph_ok_keys _ Hok) as [_ Hnd].
  destruct (dict_get corpus page) as [links|] eqn:Hget.
  2:{ apply dict_get_None in Hget. contradiction. }
  destruct (link_graph_ok_links _ _ _ Hok Hget) as [Hndl [_ Hincl]].
  destruct links as [|l links].
  - eexists. split; [now apply transition_model_dangling_eq|].
    now rewrite keys_map_pair.
  - eexists. split.
    + apply (transition_model_linked_eq corpus page d (l :: links));
        try assumption. discriminate.
    + rewrite keys_app, !keys_map_pair.
      now apply links_then_rest_Permutation.
Qed.

End TransitionModelKeys.

(* ================================================================= *)
(** ** Sums in exact arithmetic *)

Lemma Qsum_app (a b : list Q) : (Qsum (a ++ b) == Qsum a + Qsum b)%Q.
Proof.
  induction a as [|x a IH]; simpl.
  - now rewrite Qplus_0_l.
  - rewrite IH. apply Qplus_assoc.
Qed.

Lemma inject_len_cons {A : Type} (x : A) (l : list A) :
  (inject_Z (len (x :: l)) == 1 + inject_Z (len l))%Q.
Proof.
  unfold len. simpl List.length.
  rewrite Nat2Z.inj_succ, <- Z.add_1_l, inject_Z_plus. reflexivity.
Qed.

Lemma Qsum_const {A : Type} (c : Q) (l : list A) :
  (Qsum (map (fun _ => c) l) == inject_Z (len l) * c)%Q.
Proof.
  induction l as [|x l IH].
  - simpl. unfold len. simpl. now rewrite Qmult_0_l.
  - rewrite inject_len_cons. simpl. rewrite IH. ring.
Qed.

Lemma inject_len_pos {A : Type} (l : list A) : l <> [] -> (0 < inject_Z (len l))%Q.
Proof.
  destruct l as [|x l]; [congruence|]. intros _.
  unfold len. simpl List.length. rewrite Nat2Z.inj_succ.
  change 0%Q with (inject_Z 0). rewrite <- Zlt_Qlt. lia.
Qed.

Lemma inject_len_app {A : Type} (a b : list A) :
  (inject_Z (len (a ++ b)) == inject_Z (len a) + inject_Z (len b))%Q.
Proof.
  unfold len. rewrite length_app, Nat2Z.inj_add, inject_Z_plus. reflexivity.
Qed.

Lemma len_keys {V : Type} (d : dict V) : len (keys d) = len d.
Proof. unfold len, keys. now rewrite length_map. Qed.

Lemma len_Permutation {A : Type} (a b : list A) : Permutation a b -> len a = len b.
Proof. intros H. unfold len. now rewrite (Permutation_length H). Qed.

(** [transition_model] in exact arithmetic on a Link Graph: the values are
    non-negative and sum to one. *)
Lemma transition_model_exact_sum (corpus : Corpus) (page : Page) (d : Q) :
  link_graph_ok corpus = true ->
  In page (keys corpus) ->
  exists dist : dict Q,
    transition_model corpus page d = ret dist
    /\ Permutation (keys dist) (keys corpus)
    /\ (Qsum (values dist) == 1)%Q
    /\ ((0 <= d)%Q -> (d <= 1)%Q -> Forall (fun v => 0 <= v)%Q (values dist)).
Proof.
  intros Hok Hin. destruct (link_graph_ok_keys _ Hok) as [Hne Hnd].
  destruct (dict_get corpus page) as [links|] eqn:Hget.
  2:{ apply dict_get_None in Hget. contradiction. }
  destruct (link_graph_ok_links _ _ _ Hok Hget) as [Hndl [_ Hincl]].
  pose proof (inject_len_pos corpus Hne) as HN.
  destruct links as [|l links].
  - eexists. split; [now apply transition_model_dangling_eq|].
    rewrite keys_map_pair, values_map_pair. split; [reflexivity|]. split.
    + rewrite Qsum_const, len_keys. unfold uniform_prob. simpl.
      field. intros H. rewrite H in HN. now apply Qlt_irrefl in HN.
    + intros _ _. apply Forall_forall. intros v Hv.
      apply in_map_iff in Hv. destruct Hv as [k [<- _]].
      unfold uniform_prob. simpl. apply Qle_shift_div_l; [assumption|].
      rewrite Qmult_0_l. discriminate.
  - set (L := l :: links) in *.
    assert (HneL : L <> []) by discriminate.
    pose proof (inject_len_pos L HneL) as HL.
    pose proof (links_then_rest_Permutation L (keys corpus) Hndl Hnd Hincl) as HP.
    eexists. split.
    { apply (transition_model_linked_eq corpus page d L); assumption. }
    rewrite keys_app, !keys_map_pair. split; [assumption|].
    set (R := filter (fun k => negb (mem k L)) (keys corpus)) in *.
    clearbody R L.
    unfold values. rewrite map_app, !map_map. simpl.
    unfold linked_prob, random_prob. simpl.
    change (inject_Z 1) with 1%Q.
    assert (HR : (inject_Z (len R) == inject_Z (len corpus) - inject_Z (len L))%Q).
    { rewrite <- len_keys, <- (len_Permutation _ _ HP), inject_len_app. ring. }
    split.
    + rewrite Qsum_app, !Qsum_const, HR. field. split; intros H.
      * rewrite H in HN. now apply Qlt_irrefl in HN.
      * rewrite H in HL. now apply Qlt_irrefl in HL.
    + intros Hd0 Hd1.
      assert (Hr : (0 <= (1 - d) / inject_Z (len corpus))%Q).
      { apply Qle_shift_div_l; [assumption|]. rewrite Qmult_0_l. lra. }
      assert (Hl : (0 <= d / inject_Z (len L))%Q).
      { apply Qle_shift_div_l; [assumption|]. rewrite Qmult_0_l. lra. }
      apply Forall_app. split; apply Forall_forall; intros v Hv;
        apply in_map_iff in Hv; destruct Hv as [k [<- _]]; [|assumption].
      apply (Qle_trans _ (0 + 0)); [discriminate|].
      now apply Qplus_le_compat.
Qed.

(* ================================================================= *)
(** ** random.choices returns a member of the population *)

Lemma midpoint_bounds (lo hi : nat) :
  (lo < hi)%nat -> (lo <= (lo + hi) / 2 < hi)%nat.
Proof.
  intros H. split.
  - apply Nat.div_le_lower_bound; lia.
  - apply Nat.Div0.div_lt_upper_bound; lia.
Qed.

Lemma list_index_In {A : Type} (l : list A) (i : nat) (x : A) :
  list_index l i = ret x -> In x l.
Proof.
  unfold list_index. destruct (nth_error l i) eqn:E; [|discriminate].
  intros [= <-]. eapply nth_error_In. eassumption.
Qed.

Lemma list_index_lt {A : Type} (l : list A) (i : nat) :
  (i < List.length l)%nat -> exists x, list_index l i = ret x.
Proof.
  intros H. unfold list_index. destruct (nth_error l i) eqn:E.
  - now eexists.
  - apply nth_error_None in E. lia.
Qed.

Section Choices.

Context {num : Type} {F : PyFloat num}.

Lemma length_accumulate_from (acc : num) (l : list num) :
  List.length (accumulate_from acc l) = List.length l.
Proof.
  revert acc. induction l as [|w l IH]; intros acc; simpl; [reflexivity|].
  now rewrite IH.
Qed.

Lemma length_accumulate (l : list num) :
  List.length (accumulate l) = List.length l.
Proof.
  destruct l as [|w l]; simpl; [reflexivity|].
  now rewrite length_accumulate_from.
Qed.

(** The bisection stays inside [lo, hi] and never reads past [hi]. *)
Lemma bisect_loop_bounds (a : list num) (x : num) (fuel lo hi : nat) :
  (lo <= hi)%nat -> (hi <= List.length a)%nat ->
  exists i, bisect_loop fuel a x lo hi = ret i /\ (lo <= i <= hi)%nat.
Proof.
  revert lo hi. induction fuel as [|fuel IH]; intros lo hi Hle Hhi;
    cbn [bisect_loop].
  - exists lo. split; [reflexivity | lia].
  - destruct (lo <? hi)%nat eqn:E.
    + apply Nat.ltb_lt in E. pose proof (midpoint_bounds lo hi E) as Hm.
      destruct (list_index_lt a ((lo + hi) / 2)) as [am Ham]; [lia|].
      rewrite Ham. cbn [bind ret]. destruct (flt x am).
      * destruct (IH lo ((lo + hi) / 2)%nat) as [i [Hi Hb]]; [lia | lia |].
        exists i. split; [assumption | lia].
      * destruct (IH (S ((lo + hi) / 2)) hi) as [i [Hi Hb]]; [lia | lia |].
        exists i. split; [assumption | lia].
    + exists lo. split; [reflexivity | lia].
Qed.

(** The fuel [hi - lo] is enough: more fuel does not change the result. *)
Lemma bisect_loop_fuel (a : list num) (x : num) (fuel fuel' lo hi : nat) :
  (hi - lo <= fuel)%nat -> (hi - lo <= fuel')%nat ->
  bisect_loop fuel a x lo hi = bisect_loop fuel' a x lo hi.
Proof.
  revert fuel' lo hi. induction fuel as [|fuel IH]; intros fuel' lo hi H H'.
  - destruct fuel' as [|fuel']; cbn [bisect_loop]; [reflexivity|].
    destruct (lo <? hi)%nat eqn:E; [|reflexivity].
    apply Nat.ltb_lt in E. lia.
  - destruct fuel' as [|fuel']; cbn [bisect_loop].
    + destruct (lo <? hi)%nat eqn:E; [|reflexivity].
      apply Nat.ltb_lt in E. lia.
    + destruct (lo <? hi)%nat eqn:E; [|reflexivity].
      apply Nat.ltb_lt in E. pose proof (midpoint_bounds lo hi E) as Hm.
      destruct (list_index a ((lo + hi) / 2)) as [e|am]; cbn [bind];
        [reflexivity|].
      destruct (flt x am); apply IH; lia.
Qed.

Lemma choices_In (population : list Page) (weights : list num) (r : num)
  (x : Page) :
  choices population weights r = ret x -> In x population.
Proof.
  unfold choices.
  destruct (negb (List.length (accumulate weights) =? List.length population)%nat);
    [discriminate|].
  destruct (list_last (accumulate weights)) as [e|c]; simpl; [discriminate|].
  destruct (fle (fadd c (of_int 0)) (of_int 0)); [discriminate|].
  destruct (negb (isfinite (fadd c (of_int 0)))); [discriminate|].
  destruct (bisect _ _ _ _) as [e|i]; simpl; [discriminate|].
  apply list_index_In.
Qed.

Lemma choices_returns (population : list Page) (weights : list num) (r : num) :
  population <> [] ->
  List.length weights = List.length population ->
  choices_accepts weights = true ->
  exists x, choices population weights r = ret x /\ In x population.
Proof.
  intros Hne Hlen Hacc. unfold choices, choices_accepts in *.
  rewrite length_accumulate, Hlen, Nat.eqb_refl. simpl.
  destruct (list_last (accumulate weights)) as [e|c]; [discriminate|]. simpl.
  apply andb_true_iff in Hacc. destruct Hacc as [H1 H2].
  apply negb_true_iff in H1. rewrite H1, H2. simpl.
  assert (Hpos : (0 < List.length population)%nat).
  { destruct population; [congruence | simpl; lia]. }
  destruct (bisect_loop_bounds (accumulate weights) (fmul r (fadd c (of_int 0)))
              (List.length population - 1 - 0) 0 (List.length population - 1))
    as [i [Hi Hb]]; [lia | rewrite length_accumulate; lia |].
  unfold bisect. rewrite Hi. simpl.
  destruct (list_index_lt population i) as [x Hx]; [lia|].
  exists x. split; [assumption | now apply list_index_In in Hx].
Qed.

End Choices.

(* ================================================================= *)
(** ** The visit counters *)

Lemma fold_left_init_counters (ks : list Page) (d : dict Z) :
  NoDup ks ->
  (forall k, In k ks -> ~ In k (keys d)) ->
  fold_left (fun visited webpage => dict_set visited webpage 0%Z) ks d
  = d ++ map (fun k => (k, 0%Z)) ks.
Proof.
  revert d. induction ks as [|k ks IH]; intros d Hnd Hfresh; simpl.
  - now rewrite app_nil_r.
  - inversion Hnd as [|? ? Hk Hnd']; subst.
    rewrite dict_set_fresh by (apply Hfresh; now left).
    rewrite IH; [now rewrite <- app_assoc | assumption |].
    intros k' Hin. rewrite keys_app, in_app_iff. simpl.
    intros [H|[H|[]]]; [|congruence].
    revert H. apply Hfresh. now right.
Qed.

Lemma Zsum_zeros (ks : list Page) :
  Zsum (values (map (fun k => (k, 0%Z)) ks)) = 0%Z.
Proof. induction ks as [|k ks IH]; simpl; [reflexivity | exact IH]. Qed.

Lemma Zsum_dict_set (d : dict Z) (k : Page) (c v : Z) :
  dict_get d k = Some c ->
  Zsum (values (dict_set d k v)) = (Zsum (values d) - c + v)%Z.
Proof.
  induction d as [|[k' c'] d IH]; simpl; [discriminate|].
  destruct (String.eqb k k') eqn:E; simpl.
  - intros [= ->]. lia.
  - intros H. rewrite (IH H). lia.
Qed.

Lemma Forall_values_dict_set {V : Type} (P : V -> Prop) (d : dict V)
  (k : Page) (v : V) :
  Forall P (values d) -> P v -> Forall P (values (dict_set d k v)).
Proof.
  induction d as [|[k' v'] d IH]; simpl; intros Hd Hv.
  - now constructor.
  - inversion Hd; subst. destruct (String.eqb k k'); simpl.
    + now constructor.
    + constructor; [assumption | now apply IH].
Qed.

Lemma dict_get_value {V : Type} (d : dict V) (k : Page) (v : V) :
  dict_get d k = Some v -> In v (values d).
Proof.
  intros H. apply dict_get_entry in H. unfold values.
  change v with (snd (k, v)). now apply in_map.
Qed.

Lemma getitem_present {V : Type} (d : dict V) (k : Page) :
  In k (keys d) -> exists v, getitem d k = ret v /\ dict_get d k = Some v.
Proof.
  intros H. apply dict_get_In in H. unfold getitem.
  destruct (dict_get d k) as [v|]; [|congruence]. now exists v.
Qed.

Lemma NoDup_keys_dict_get {V : Type} (d : dict V) (k : Page) (v : V) :
  NoDup (keys d) -> In (k, v) d -> dict_get d k = Some v.
Proof.
  induction d as [|[k' v'] d IH]; simpl; intros Hnd Hin; [tauto|].
  inversion Hnd as [|? ? Hk Hnd']; subst.
  destruct Hin as [[= -> ->]|Hin].
  - now rewrite String.eqb_refl.
  - destruct (String.eqb k k') eqn:E.
    + apply String.eqb_eq in E. subst. exfalso. apply Hk.
      change k' with (fst (k', v)). now apply in_map.
    + now apply IH.
Qed.

Section Sampling.

Context {num : Type} {F : PyFloat num}.

Lemma ranks_loop (visited : dict Z) (n : Z) :
  n <> 0%Z ->
  forall (sub : dict Z) (acc : dict num),
    (forall k c, In (k, c) sub -> dict_get visited k = Some c) ->
    NoDup (keys sub) ->
    (forall k, In k (keys sub) -> ~ In k (keys acc)) ->
    for_each (keys sub)
      (fun PageRank webpage =>
         count <- getitem visited webpage ;;
         rank <- truediv_ii count n ;;
         ret (dict_set PageRank webpage rank))
      acc
    = ret (acc ++ map (rank_of n) sub).
Proof.
  intros Hn. induction sub as [|[k c] sub IH]; intros acc Hsub Hnd Hfresh.
  - simpl. now rewrite app_nil_r.
  - simpl in *. inversion Hnd as [|? ? Hk Hnd']; subst.
    unfold getitem at 1. rewrite (Hsub k c) by now left. simpl.
    unfold truediv_ii at 1. apply Z.eqb_neq in Hn. rewrite Hn. simpl.
    rewrite dict_set_fresh by (apply Hfresh; now left).
    rewrite IH; [now rewrite <- app_assoc | | assumption |].
    + intros k' c' Hin. apply Hsub. now right.
    + intros k' Hin. rewrite keys_app, in_app_iff. simpl.
      intros [H|[H|[]]]; [|congruence].
      revert H. apply Hfresh. now right.
Qed.

Lemma keys_map_rank_of (n : Z) (visited : dict Z) :
  keys (map (rank_of n) visited) = keys visited.
Proof. unfold keys. rewrite map_map. reflexivity. Qed.

End Sampling.

Section Walk.

Context {num : Type} {F : PyFloat num}.
Variables (corpus : Corpus) (damping_factor : num) (random : nat -> num).
Hypothesis Hok : link_graph_ok corpus = true.
Hypothesis Hdraws : draws_accepted corpus damping_factor = true.

(** One step of the walk, as the body of the loop of [sample_pagerank]. *)
Let step (st : Page * dict Z) (sample : nat) : result (Page * dict Z) :=
  let (choice, visited) := st in
  prob <- transition_model corpus choice damping_factor ;;
  choice <- choices (keys prob) (values prob) (random (S sample)) ;;
  count <- getitem visited choice ;;
  ret (choice, dict_set visited choice (count + 1)%Z).

Lemma step_draws_page (choice : Page) (r : num) :
  In choice (keys corpus) ->
  exists prob next,
    transition_model corpus choice damping_factor = ret prob
    /\ choices (keys prob) (values prob) r = ret next
    /\ In next (keys corpus).
Proof.
  intros Hin.
  destruct (transition_model_keys corpus choice damping_factor Hok Hin)
    as [prob [Hprob Hperm]].
  unfold draws_accepted in Hdraws. apply andb_true_iff in Hdraws.
  destruct Hdraws as [_ Hall]. rewrite forallb_forall in Hall.
  specialize (Hall choice Hin). rewrite Hprob in Hall.
  destruct (choices_returns (keys prob) (values prob) r) as [next [Hnext Hmem]].
  - intros Hnil. rewrite Hnil in Hperm. apply Permutation_nil in Hperm.
    rewrite Hperm in Hin. contradiction.
  - unfold keys, values. now rewrite !length_map.
  - assumption.
  - exists prob, next. repeat split; try assumption.
    eapply Permutation_in; eassumption.
Qed.

(** Every step increments exactly one counter of a page of the graph. *)
Lemma walk_counts (count : nat) :
  forall (start : nat) (choice : Page) (visited : dict Z),
    In choice (keys corpus) ->
    keys visited = keys corpus ->
    Forall (fun c => 0 <= c)%Z (values visited) ->
    exists choice' visited',
      for_range start count step (choice, visited) = ret (choice', visited')
      /\ In choice' (keys corpus)
      /\ keys visited' = keys corpus
      /\ Forall (fun c => 0 <= c)%Z (values visited')
      /\ Zsum (values visited') = (Zsum (values visited) + Z.of_nat count)%Z.
Proof.
  induction count as [|count IH]; intros start choice visited Hin Hkeys Hpos.
  - exists choice, visited. simpl. repeat split; try assumption. lia.
  - destruct (step_draws_page choice (random (S start)) Hin)
      as [prob [next [Hprob [Hnext Hmem]]]].
    destruct (getitem_present visited next) as [c [Hitem Hget]].
    { now rewrite Hkeys. }
    assert (Hc : (0 <= c)%Z).
    { rewrite Forall_forall in Hpos. apply Hpos.
      eapply dict_get_value. eassumption. }
    destruct (IH (S start) next (dict_set visited next (c + 1)%Z))
      as [choice' [visited' [Hrun [Hin' [Hkeys' [Hpos' Hsum']]]]]].
    + assumption.
    + rewrite keys_dict_set_present; [assumption | now rewrite Hkeys].
    + apply Forall_values_dict_set; [assumption | lia].
    + exists choice', visited'. repeat split; try assumption.
      * cbn [for_range]. unfold step at 1. rewrite Hprob. cbn [bind ret].
        rewrite Hnext. cbn [bind ret]. rewrite Hitem. cbn [bind ret].
        exact Hrun.
      * rewrite Hsum', (Zsum_dict_set _ _ _ _ Hget). lia.
Qed.

End Walk.

Section SamplePagerank.

Context {num : Type} {F : PyFloat num}.

Lemma first_draw (corpus : Corpus) (damping_factor : num) (r : num) :
  corpus <> [] ->
  draws_accepted corpus damping_factor = true ->
  exists first,
    truediv_ii 1 (len corpus) = ret (uniform_prob corpus)
    /\ choices (keys corpus)
         (repeat (uniform_prob corpus) (List.length corpus)) r = ret first
    /\ In first (keys corpus).
Proof.
  intros Hne Hacc. unfold draws_accepted in Hacc.
  apply andb_true_iff in Hacc. destruct Hacc as [Hacc _].
  assert (Hdiv : truediv_ii 1 (len corpus) = ret (uniform_prob corpus)).
  { unfold truediv_ii. destruct corpus; [congruence | reflexivity]. }
  rewrite Hdiv in Hacc. cbn [ret] in Hacc.
  destruct (choices_returns (keys corpus)
              (repeat (uniform_prob corpus) (List.length corpus)) r)
    as [first [Hfirst Hin]].
  - destruct corpus; [congruence | discriminate].
  - unfold keys. now rewrite repeat_length, length_map.
  - assumption.
  - now exists first.
Qed.

(** The sampler on a Link Graph, for any non-zero [n]: the result holds,
    for every page, its visit count divided by [n]; the counts are those of
    [max(n, 0)] steps. *)
Lemma sample_pagerank_run (corpus : Corpus) (damping_factor : num) (n : Z)
  (random : nat -> num) :
  link_graph_ok corpus = true ->
  draws_accepted corpus damping_factor = true ->
  n <> 0%Z ->
  exists visited : dict Z,
    sample_pagerank corpus damping_factor n random
    = ret (map (rank_of n) visited)
    /\ keys visited = keys corpus
    /\ Forall (fun c => 0 <= c)%Z (values visited)
    /\ Zsum (values visited) = Z.of_nat (Z.to_nat n).
Proof.
  intros Hok Hacc Hn. destruct (link_graph_ok_keys _ Hok) as [Hne Hnd].
  destruct (first_draw corpus damping_factor (random O) Hne Hacc)
    as [first [Hdiv [Hfirst Hin]]].
  pose (visited0 := map (fun k => (k, 0%Z)) (keys corpus)).
  destruct (walk_counts corpus damping_factor random Hok Hacc (Z.to_nat n)
              O first visited0)
    as [choice' [visited' [Hrun [_ [Hkeys [Hpos Hsum]]]]]].
  - assumption.
  - apply keys_map_pair.
  - unfold visited0. apply Forall_forall. intros c Hc.
    apply in_map_iff in Hc. destruct Hc as [[k c'] [<- Hc]].
    apply in_map_iff in Hc. destruct Hc as [k' [[= _ <-] _]]. simpl. lia.
  - exists visited'. repeat split; try assumption.
    + unfold sample_pagerank. rewrite Hdiv. cbn [bind ret].
      rewrite Hfirst. cbn [bind ret].
      rewrite fold_left_init_counters; [| assumption | intros k _; simpl; tauto].
      cbn [app]. fold visited0. cbv zeta in Hrun. rewrite Hrun.
      cbn [bind ret snd].
      rewrite (ranks_loop visited' n Hn visited' []); [reflexivity | | |].
      * intros k c Hkc. apply NoDup_keys_dict_get; [|assumption].
        now rewrite Hkeys.
      * now rewrite Hkeys.
      * intros k _. simpl. tauto.
    + rewrite Hsum. unfold visited0. rewrite Zsum_zeros. lia.
Qed.

End SamplePagerank.

(* ================================================================= *)
(** ** Exact arithmetic: every draw is accepted *)

Lemma list_last_cons2 {A : Type} (x y : A) (l : list A) :
  list_last (x :: y :: l) = list_last (y :: l).
Proof.
  unfold list_last, list_index. simpl. now rewrite Nat.sub_0_r.
Qed.

Lemma list_last_accumulate_from (l : list Q) (acc : Q) :
  exists c, list_last (acc :: accumulate_from acc l) = ret c
            /\ (c == acc + Qsum l)%Q.
Proof.
  revert acc. induction l as [|w l IH]; intros acc.
  - exists acc. split; [reflexivity|]. simpl. ring.
  - destruct (IH (acc + w)%Q) as [c [Hc Heq]]. exists c. split.
    + cbn [accumulate_from]. rewrite list_last_cons2. exact Hc.
    + rewrite Heq. simpl. ring.
Qed.

Lemma choices_accepts_exact (weights : list Q) :
  weights <> [] -> (Qsum weights == 1)%Q -> choices_accepts weights = true.
Proof.
  intros Hne Hsum. destruct weights as [|w l]; [congruence|].
  unfold choices_accepts. cbn [accumulate].
  destruct (list_last_accumulate_from l w) as [c [Hc Heq]].
  rewrite Hc. cbn [ret]. simpl in Hsum |- *.
  rewrite andb_true_r. apply negb_true_iff.
  destruct (Qle_bool (c + inject_Z 0) (inject_Z 0)) eqn:E; [|reflexivity].
  apply Qle_bool_iff in E. change (inject_Z 0) with 0%Q in E. lra.
Qed.

Lemma Qsum_repeat (c : Q) (n : nat) :
  (Qsum (repeat c n) == inject_Z (Z.of_nat n) * c)%Q.
Proof.
  induction n as [|n IH].
  - simpl. ring.
  - cbn [repeat Qsum fold_right]. fold (Qsum (repeat c n)). rewrite IH.
    rewrite Nat2Z.inj_succ, <- Z.add_1_l, inject_Z_plus. ring.
Qed.

Lemma draws_accepted_exact (corpus : Corpus) (d : Q) :
  link_graph_ok corpus = true -> draws_accepted corpus d = true.
Proof.
  intros Hok. destruct (link_graph_ok_keys _ Hok) as [Hne Hnd].
  pose proof (inject_len_pos corpus Hne) as HN.
  unfold draws_accepted. apply andb_true_iff. split.
  - unfold truediv_ii. destruct (len corpus =? 0)%Z eqn:E.
    { apply len_eqb_0 in E. contradiction. }
    cbn [ret]. apply choices_accepts_exact.
    + destruct corpus; [congruence | discriminate].
    + rewrite Qsum_repeat. fold (len corpus). cbn [fdiv of_int exactQ].
      change (inject_Z 1) with 1%Q. field.
      intros H. rewrite H in HN. now apply Qlt_irrefl in HN.
  - apply forallb_forall. intros page Hin.
    destruct (transition_model_exact_sum corpus page d Hok Hin)
      as [dist [Hrun [Hperm [Hsum _]]]].
    rewrite Hrun. cbn [ret]. apply choices_accepts_exact; [|assumption].
    intros Hnil. unfold values in Hnil. apply map_eq_nil in Hnil. subst dist.
    apply Permutation_nil in Hperm. rewrite Hperm in Hin. contradiction.
Qed.

Lemma Qsum_ranks (n : Z) (visited : dict Z) :
  n <> 0%Z ->
  (Qsum (values (map (rank_of n) visited))
   == inject_Z (Zsum (values visited)) / inject_Z n)%Q.
Proof.
  intros Hn.
  assert (Hn' : ~ (inject_Z n == 0)%Q).
  { change 0%Q with (inject_Z 0). rewrite inject_Z_injective. assumption. }
  induction visited as [|[k c] visited IH].
  - simpl. field. assumption.
  - cbn [map values rank_of fst snd Qsum fold_right Zsum] in *.
    unfold values, Qsum in IH. rewrite IH. simpl.
    unfold Zsum. rewrite inject_Z_plus. field. assumption.
Qed.

(** In exact arithmetic the sampler returns on every Link Graph, for every
    damping factor, and its ranks sum to one. *)
Lemma sample_pagerank_exact (corpus : Corpus) (d : Q) (n : Z)
  (random : nat -> Q) :
  link_graph_ok corpus = true ->
  (1 <= n)%Z ->
  exists visited : dict Z,
    sample_pagerank corpus d n random = ret (map (rank_of n) visited)
    /\ keys visited = keys corpus
    /\ Forall (fun c => 0 <= c)%Z (values visited)
    /\ Zsum (values visited) = n
    /\ (Qsum (values (map (rank_of n) visited)) == 1)%Q.
Proof.
  intros Hok Hn.
  destruct (sample_pagerank_run corpus d n random Hok
              (draws_accepted_exact corpus d Hok))
    as [visited [Hrun [Hkeys [Hpos Hsum]]]]; [lia|].
  rewrite Z2Nat.id in Hsum by lia.
  exists visited. repeat split; try assumption.
  rewrite Qsum_ranks by lia. rewrite Hsum. field.
  change 0%Q with (inject_Z 0). rewrite inject_Z_injective. lia.
Qed.

(* ================================================================= *)
(** ** transition_model on the store: what it writes *)

Section StoreFacts.

Context {num : Type} {F : PyFloat num}.
Variables (h0 : store (num := num)) (corpus : ref) (G : Corpus).
Hypothesis Hcorpus : nth_error h0 corpus = Some (OCorpus G).

Lemma read_corpus_frame (o : object) :
  read_corpus corpus (h0 ++ [o]) = (h0 ++ [o], ret G).
Proof.
  unfold read_corpus. rewrite nth_error_app1.
  - now rewrite Hcorpus.
  - apply nth_error_Some. congruence.
Qed.

Lemma corpus_item_frame (page : Page) (o : object) :
  corpus_item corpus page (h0 ++ [o]) = (h0 ++ [o], getitem G page).
Proof.
  unfold corpus_item, run_bind, run_lift. now rewrite read_corpus_frame.
Qed.

Lemma corpus_len_frame (o : object) :
  corpus_len corpus (h0 ++ [o]) = (h0 ++ [o], ret (len G)).
Proof.
  unfold corpus_len, run_bind, run_ret. now rewrite read_corpus_frame.
Qed.

Lemma corpus_keys_frame (o : object) :
  corpus_keys corpus (h0 ++ [o]) = (h0 ++ [o], ret (keys G)).
Proof.
  unfold corpus_keys, run_bind, run_ret. now rewrite read_corpus_frame.
Qed.

Lemma replace_nth_last (h : store (num := num)) (o o' : object) :
  replace_nth (h ++ [o]) (List.length h) o' = h ++ [o'].
Proof. induction h as [|x h IH]; simpl; [reflexivity | now rewrite IH]. Qed.

Lemma store_item_last (acc : dict num) (k : Page) (v : num) :
  store_item (List.length h0) k v (h0 ++ [ODist acc])
  = (h0 ++ [ODist (dict_set acc k v)], ret tt).
Proof.
  unfold store_item. rewrite nth_error_app2, Nat.sub_diag by lia. simpl.
  now rewrite replace_nth_last.
Qed.

Lemma run_for_each_simulates {A : Type}
  (f : dict num -> A -> result (dict num)) (g : A -> Run unit) (l : list A) :
  (forall x, simulates h0 (fun acc => f acc x) (g x) tt) ->
  simulates h0 (for_each l f) (run_for_each l g) tt.
Proof.
  intros Hbody. induction l as [|x l IH]; intros acc.
  - exists acc. split; [reflexivity|]. simpl. now intros r [= <-].
  - destruct (Hbody x acc) as [acc1 [Hg Hf]].
    cbn [run_for_each for_each]. unfold run_bind. rewrite Hg.
    destruct (f acc x) as [e|a]; cbn [bind].
    + exists acc1. split; [reflexivity | discriminate].
    + rewrite (Hf a eq_refl). apply IH.
Qed.

End StoreFacts.

Section StoreRefinement.

Context {num : Type} {F : PyFloat num}.
Variables (h0 : store (num := num)) (corpus : ref) (G : Corpus).
Hypothesis Hcorpus : nth_error h0 corpus = Some (OCorpus G).
Variables (page : Page) (damping_factor : num).

Let probabilities : ref := List.length h0.

Lemma uniform_body_simulates (webpage : Page) :
  simulates h0
    (fun acc => p <- truediv_ii 1 (len G) ;; ret (dict_set acc webpage p))
    (run_bind (corpus_len corpus) (fun n =>
     run_bind (run_lift (truediv_ii 1 n)) (fun p =>
     store_item probabilities webpage p)))
    tt.
Proof.
  intros acc. unfold run_bind at 1.
  rewrite (corpus_len_frame h0 corpus G Hcorpus).
  unfold run_bind, run_lift. cbn [ret].
  destruct (truediv_ii 1 (len G)) as [e|p]; cbn [bind].
  - exists acc. split; [reflexivity | discriminate].
  - exists (dict_set acc webpage p). split.
    + apply store_item_last.
    + now intros r [= <-].
Qed.

Lemma linked_body_simulates (links : pyset) (prob_at_random : num)
  (webpage : Page) :
  getitem G page = ret links ->
  simulates h0
    (fun acc =>
       q <- truediv_fi damping_factor (len links) ;;
       ret (dict_set acc webpage (fadd q prob_at_random)))
    (run_bind (corpus_item corpus page) (fun links =>
     run_bind (run_lift (truediv_fi damping_factor (len links))) (fun q =>
     store_item probabilities webpage (fadd q prob_at_random))))
    tt.
Proof.
  intros Hlinks acc. unfold run_bind at 1.
  rewrite (corpus_item_frame h0 corpus G Hcorpus), Hlinks.
  unfold run_bind, run_lift. cbn [ret].
  destruct (truediv_fi damping_factor (len links)) as [e|q]; cbn [bind].
  - exists acc. split; [reflexivity | discriminate].
  - exists (dict_set acc webpage (fadd q prob_at_random)). split.
    + apply store_item_last.
    + now intros r [= <-].
Qed.

Lemma rest_body_simulates (links : pyset) (prob_at_random : num)
  (webpage : Page) :
  getitem G page = ret links ->
  simulates h0
    (fun acc =>
       if negb (mem webpage links)
       then ret (dict_set acc webpage prob_at_random)
       else ret acc)
    (run_bind (corpus_item corpus page) (fun links =>
     if negb (mem webpage links)
     then store_item probabilities webpage prob_at_random
     else run_ret tt))
    tt.
Proof.
  intros Hlinks acc. unfold run_bind.
  rewrite (corpus_item_frame h0 corpus G Hcorpus), Hlinks. cbn [ret].
  destruct (negb (mem webpage links)).
  - exists (dict_set acc webpage prob_at_random). split.
    + apply store_item_last.
    + now intros r [= <-].
  - exists acc. split; [reflexivity|]. now intros r [= <-].
Qed.

(** The function on the store does what [transition_model] does, writes
    its result into a new object and nothing else. *)
Lemma transition_model_store_refines :
  exists acc,
    transition_model_store corpus page damping_factor h0
    = (h0 ++ [ODist acc],
       match transition_model G page damping_factor with
       | inl e => inl e
       | inr _ => ret (List.length h0)
       end)
    /\ forall dist,
         transition_model G page damping_factor = ret dist -> acc = dist.
Proof.
  unfold transition_model_store, transition_model.
  unfold run_bind at 1. unfold new_dict. cbn [ret]. fold probabilities.
  unfold run_bind at 1. rewrite (corpus_item_frame h0 corpus G Hcorpus).
  destruct (getitem G page) as [e|links] eqn:Hlinks; cbn [bind].
  { exists []. split; [reflexivity | discriminate]. }
  destruct (len links =? 0)%Z.
  - unfold run_bind at 1. rewrite (corpus_keys_frame h0 corpus G Hcorpus).
    cbn [ret].
    destruct (run_for_each_simulates h0 _ _ (keys G) uniform_body_simulates [])
      as [acc [Hrun Hacc]].
    unfold run_bind at 1. rewrite Hrun.
    exists acc. split; [|exact Hacc].
    match goal with
    | |- context [for_each ?l ?f ?a] => destruct (for_each l f a)
    end; reflexivity.
  - unfold run_bind at 1. rewrite (corpus_len_frame h0 corpus G Hcorpus).
    cbn [ret]. unfold run_bind at 1. unfold run_lift at 1.
    destruct (truediv_fi (fsub (of_int 1) damping_factor) (len G))
      as [e|prob_at_random]; cbn [bind].
    { exists []. split; [reflexivity | discriminate]. }
    unfold run_bind at 1. rewrite (corpus_item_frame h0 corpus G Hcorpus).
    rewrite Hlinks. cbn [ret].
    destruct (run_for_each_simulates h0 _ _ links
                (fun w => linked_body_simulates links prob_at_random w Hlinks)
                [])
      as [acc1 [Hrun1 Hacc1]].
    unfold run_bind at 1. rewrite Hrun1.
    match goal with
    | |- context [for_each links ?f ?a] =>
        destruct (for_each links f a) as [e|d1]
    end; cbn [bind].
    { exists acc1. split; [reflexivity | discriminate]. }
    rewrite (Hacc1 d1 eq_refl). cbn [ret].
    unfold run_bind at 1. rewrite (corpus_keys_frame h0 corpus G Hcorpus).
    cbn [ret].
    destruct (run_for_each_simulates h0 _ _ (keys G)
                (fun w => rest_body_simulates links prob_at_random w Hlinks)
                d1)
      as [acc2 [Hrun2 Hacc2]].
    unfold run_bind at 1. rewrite Hrun2.
    exists acc2. split; [|exact Hacc2].
    match goal with
    | |- context [for_each ?l ?f ?a] => destruct (for_each l f a)
    end; reflexivity.
Qed.

End StoreRefinement.

(* ================================================================= *)
(** ** crawl builds a Link Graph *)

Lemma for_each_invariant {A St : Type} (P : St -> Prop) (l : list A)
  (body : St -> A -> result St) :
  (forall s x s', In x l -> P s -> body s x = ret s' -> P s') ->
  forall s s', P s -> for_each l body s = ret s' -> P s'.
Proof.
  induction l as [|x l IH]; intros Hbody s s' Hs Hrun; simpl in Hrun.
  - now injection Hrun as <-.
  - destruct (body s x) as [e|s1] eqn:E; simpl in Hrun; [discriminate|].
    apply (IH (fun s x s' Hin => Hbody s x s' (or_intror Hin)) s1 s');
      [|assumption].
    apply (Hbody s x s1); [now left | assumption | assumption].
Qed.

Lemma set_remove_In (s : pyset) (x y : Page) :
  In y (set_remove s x) <-> In y s /\ y <> x.
Proof.
  unfold set_remove. rewrite filter_In, negb_true_iff, String.eqb_neq.
  reflexivity.
Qed.

Lemma crawl_first_loop (findall_links : string -> list string)
  (directory : list (string * option string)) (pages : Corpus) :
  for_each directory
    (fun (pages : Corpus) entry =>
       let (filename, file) := entry in
       if negb (endswith filename ".html") then ret pages
       else
         match file with
         | None => raise OSError
         | Some contents =>
             let links := findall_links contents in
             ret (dict_set pages filename
                    (set_remove (set_of_list links) filename))
         end)
    [] = ret pages ->
  no_self_loop pages.
Proof.
  apply for_each_invariant.
  - intros s [filename file] s' _ Hs Hbody.
    destruct (negb (endswith filename ".html")).
    + now injection Hbody as <-.
    + destruct file as [contents|]; [|discriminate].
      injection Hbody as <-. intros p links. rewrite dict_get_set.
      destruct (String.eqb p filename) eqn:E.
      * apply String.eqb_eq in E. subst p. intros [= <-] Hin.
        apply set_remove_In in Hin. now destruct Hin.
      * apply Hs.
  - intros p links. discriminate.
Qed.

Lemma crawl_second_loop (ks : list Page) :
  forall (rest : list Page) (pages final : Corpus),
    incl rest ks ->
    keys pages = ks ->
    no_self_loop pages ->
    (forall p, In p ks -> ~ In p rest -> links_within ks pages p) ->
    for_each rest
      (fun (pages : Corpus) filename =>
         links <- getitem pages filename ;;
         ret (dict_set pages filename
                (filter (fun link => dict_mem pages link) links)))
      pages = ret final ->
    keys final = ks
    /\ no_self_loop final
    /\ forall p, In p ks -> links_within ks final p.
Proof.
  induction rest as [|f rest IH]; intros pages final Hincl Hkeys Hself Hdone Hrun.
  - simpl in Hrun. injection Hrun as <-. repeat split; try assumption.
    intros p Hp. apply Hdone; [assumption | simpl; tauto].
  - cbn [for_each] in Hrun.
    assert (Hf : In f (keys pages)).
    { rewrite Hkeys. apply Hincl. now left. }
    destruct (getitem_present pages f Hf) as [links [Hitem Hget]].
    rewrite Hitem in Hrun. cbn [bind ret] in Hrun.
    apply IH in Hrun; [exact Hrun | | | |].
    + intros x Hx. apply Hincl. now right.
    + rewrite keys_dict_set_present; assumption.
    + intros p l. rewrite dict_get_set.
      destruct (String.eqb p f) eqn:E.
      * apply String.eqb_eq in E. subst p. intros [= <-] Hin.
        apply filter_In in Hin. destruct Hin as [Hin _].
        revert Hin. now apply Hself.
      * apply Hself.
    + intros p Hp Hrest l. rewrite dict_get_set.
      destruct (String.eqb p f) eqn:E.
      * intros [= <-] q Hq. apply filter_In in Hq. destruct Hq as [_ Hq].
        apply dict_mem_In in Hq. now rewrite Hkeys in Hq.
      * apply String.eqb_neq in E. apply Hdone; [assumption|].
        simpl. intros [H|H]; [congruence | contradiction].
Qed.

(* ================================================================= *)
(** ** sample_pagerank on inputs outside its precondition *)

Lemma dict_set_nonempty {V : Type} (d : dict V) (k : Page) (v : V) :
  dict_set d k v <> [].
Proof.
  destruct d as [|[k' v'] d]; simpl; [discriminate|].
  destruct (String.eqb k k'); discriminate.
Qed.

Lemma init_counters_nonempty (ks : list Page) (d : dict Z) :
  ks <> [] \/ d <> [] ->
  fold_left (fun visited webpage => dict_set visited webpage 0%Z) ks d <> [].
Proof.
  revert d. induction ks as [|k ks IH]; intros d H; simpl.
  - destruct H; congruence.
  - apply IH. right. apply dict_set_nonempty.
Qed.

Section Preconditions.

Context {num : Type} {F : PyFloat num}.
Implicit Types (corpus : Corpus) (d : num) (n : Z) (random : nat -> num).

Lemma sample_pagerank_empty d n random :
  sample_pagerank [] d n random = raise ZeroDivisionError.
Proof. reflexivity. Qed.

Lemma sample_pagerank_zero corpus d random :
  corpus <> [] ->
  exists e,
    sample_pagerank corpus d 0 random = raise e
    /\ (choices_accepts (repeat (uniform_prob corpus) (List.length corpus))
        = true ->
        e = ZeroDivisionError).
Proof.
  intros Hne. unfold sample_pagerank.
  assert (Hdiv : truediv_ii 1 (len corpus) = ret (uniform_prob corpus)).
  { unfold truediv_ii. destruct corpus; [congruence | reflexivity]. }
  rewrite Hdiv. cbn [bind ret].
  destruct (choices (keys corpus)
              (repeat (uniform_prob corpus) (List.length corpus)) (random O))
    as [e|first] eqn:Hfirst; cbn [bind].
  { exists e. split; [reflexivity|]. intros Hacc.
    destruct (choices_returns (keys corpus)
                (repeat (uniform_prob corpus) (List.length corpus)) (random O))
      as [x [Hx _]].
    - destruct corpus; [congruence | discriminate].
    - unfold keys. now rewrite repeat_length, length_map.
    - assumption.
    - rewrite Hx in Hfirst. discriminate. }
  cbn [Z.to_nat for_range bind ret snd].
  set (visited :=
         fold_left (fun visited webpage => dict_set visited webpage 0%Z)
           (keys corpus) []).
  assert (Hv : keys visited <> []).
  { intros H. apply map_eq_nil in H. revert H.
    apply init_counters_nonempty. left.
    destruct corpus; [congruence | discriminate]. }
  destruct (keys visited) as [|k ks] eqn:Hk; [congruence|].
  destruct (getitem_present visited k) as [c [Hitem _]].
  { rewrite Hk. now left. }
  cbn [for_each]. rewrite Hitem. cbn [bind ret].
  exists ZeroDivisionError. split; reflexivity.
Qed.

Lemma sample_pagerank_negative corpus d n random :
  NoDup (keys corpus) ->
  corpus <> [] ->
  (n < 0)%Z ->
  choices_accepts (repeat (uniform_prob corpus) (List.length corpus)) = true ->
  sample_pagerank corpus d n random
  = ret (map (fun k => (k, fdiv (of_int 0) (of_int n))) (keys corpus)).
Proof.
  intros Hnd Hne Hn Hacc. unfold sample_pagerank.
  assert (Hdiv : truediv_ii 1 (len corpus) = ret (uniform_prob corpus)).
  { unfold truediv_ii. destruct corpus; [congruence | reflexivity]. }
  rewrite Hdiv. cbn [bind ret].
  destruct (choices_returns (keys corpus)
              (repeat (uniform_prob corpus) (List.length corpus)) (random O))
    as [first [Hfirst _]].
  { destruct corpus; [congruence | discriminate]. }
  { unfold keys. now rewrite repeat_length, length_map. }
  { assumption. }
  rewrite Hfirst. cbn [bind ret].
  replace (Z.to_nat n) with O by lia. cbn [for_range bind ret snd].
  rewrite fold_left_init_counters; [| assumption | intros k _; simpl; tauto].
  cbn [app].
  rewrite (ranks_loop _ n) with (sub := map (fun k => (k, 0%Z)) (keys corpus)).
  - cbn [app]. rewrite map_map. reflexivity.
  - lia.
  - intros k c Hin. apply NoDup_keys_dict_get; [|assumption].
    now rewrite keys_map_pair.
  - now rewrite keys_map_pair.
  - intros k _. simpl. tauto.
Qed.

End Preconditions.

(* ================================================================= *)
(** ** crawl returns when every page can be read *)



(* ================================================================= *)
(** * The claims of the specification *)

(** C1 — [iterate_pagerank] is specified, and documented in its docstring,
    to return the converged rank mapping, whose values sum to 1, and to be
    deterministic. The body of the function only raises
    [NotImplementedError]: for every graph and every damping factor the call
    fails and returns no mapping. *)
Theorem iterate_pagerank_not_implemented :
  forall (num : Type) (F : PyFloat num) (corpus : Corpus) (damping_factor : num),
    iterate_pagerank corpus damping_factor = raise NotImplementedError.
Proof. intros. reflexivity. Qed.

(** C2 — dangling-page rule. For every Link Graph [G] (a dict: distinct
    keys) with [N = len(G)] pages, every page [p] of [G] with an empty link
    set and every damping factor, [transition_model(G, p, d)] is the
    mapping that sends every page of [G] to [1/N]; this holds for every
    arithmetic, binary64 included. On Scenario B with [d = 0.85] and page
    ["1.html"] the doubles it returns are [0.5] and [0.5]. *)
Theorem transition_model_dangling :
  (forall (num : Type) (F : PyFloat num) (G : Corpus) (p : Page) (d : num),
      NoDup (keys G) ->
      dict_get G p = Some [] ->
      transition_model G p d
      = ret (map (fun q => (q, fdiv (of_int 1) (of_int (len G)))) (keys G)))
  /\ transition_model scenarioB "1.html" DAMPING
     = ret [("1.html", 0.5%float); ("2.html", 0.5%float)].
Proof.
  split.
  - intros num F G p d Hnd Hget.
    exact (transition_model_dangling_eq G p d Hnd Hget).
  - vm_compute. reflexivity.
Qed.

Lemma transition_model_dangling_witness :
  NoDup (keys scenarioB)
  /\ dict_get scenarioB "1.html" = Some []
  /\ transition_model scenarioB "1.html" DAMPING
     = ret (map (fun q => (q, fdiv (of_int 1) (of_int (len scenarioB))))
              (keys scenarioB)).
Proof.
  assert (Hnd : NoDup (keys scenarioB)).
  { apply nodupb_NoDup. reflexivity. }
  split; [exact Hnd|]. split; [reflexivity|].
  apply (proj1 transition_model_dangling float binary64 scenarioB "1.html"
           DAMPING Hnd).
  reflexivity.
Defined.

(** C3 — normal rule. For every Link Graph [G] with [N] pages, every page
    [p] of [G] whose link set [L] is not empty and every damping factor
    [d], [transition_model(G, p, d)] returns a mapping that sends every
    page of [L] to [d/|L| + (1-d)/N] and every page of [G] outside [L] to
    [(1-d)/N]; [p] itself is one of the latter, as a page never links to
    itself. *)
Theorem transition_model_normal_rule :
  forall (num : Type) (F : PyFloat num) (G : Corpus) (p : Page) (d : num)
         (L : pyset),
    dict_get G p = Some L ->
    L <> [] ->
    exists dist,
      transition_model G p d = ret dist
      /\ (forall q, In q L ->
                    dict_get dist q
                    = Some (fadd (fdiv d (of_int (len L)))
                              (fdiv (fsub (of_int 1) d) (of_int (len G)))))
      /\ (forall q, In q (keys G) -> ~ In q L ->
                    dict_get dist q
                    = Some (fdiv (fsub (of_int 1) d) (of_int (len G))))
      /\ (~ In p L ->
          dict_get dist p
          = Some (fdiv (fsub (of_int 1) d) (of_int (len G)))).
Proof.
  intros num F G p d L Hget Hne.
  destruct (transition_model_linked_get G p d L Hget Hne) as [dist [Hrun Hlook]].
  assert (Hrest : forall q, In q (keys G) -> ~ In q L ->
                            dict_get dist q = Some (random_prob G d)).
  { intros q Hq Hnq. rewrite Hlook.
    apply mem_not_In in Hnq. apply mem_In in Hq. now rewrite Hnq, Hq. }
  exists dist. split; [assumption|]. split; [|split].
  - intros q Hq. rewrite Hlook. apply mem_In in Hq. now rewrite Hq.
  - exact Hrest.
  - apply Hrest. eapply dict_get_Some_In. eassumption.
Qed.

Lemma transition_model_normal_rule_witness :
  exists dist,
    transition_model scenarioA "1.html" DAMPING = ret dist
    /\ dict_get dist "2.html"
       = Some (fadd (fdiv DAMPING (of_int 1))
                 (fdiv (fsub (of_int 1) DAMPING) (of_int 2)))
    /\ dict_get dist "1.html"
       = Some (fdiv (fsub (of_int 1) DAMPING) (of_int 2)).
Proof.
  destruct (transition_model_normal_rule float binary64 scenarioA "1.html"
              DAMPING ["2.html"])
    as [dist [Hrun [Hin [_ Hself]]]].
  - reflexivity.
  - discriminate.
  - exists dist. split; [exact Hrun|]. split.
    + apply Hin. simpl. tauto.
    + apply Hself. simpl. intros [H|[]]. discriminate.
Defined.



(** The same on the doubles of the scenario graphs: the float values that
    [transition_model] returns with [d = 0.85] add up to 1.0 within 1e-9. *)
Lemma transition_model_binary64_scenarios :
  forall G p,
    In (G, p)
       [(scenarioA, "1.html"); (scenarioA, "2.html");
        (scenarioB, "1.html"); (scenarioB, "2.html");
        (scenarioC, "1.html"); (three_pages, "2.html")] ->
    exists dist,
      transition_model G p DAMPING = ret dist
      /\ sums_to_one (values dist) = true.
Proof.
  intros G p Hin. simpl in Hin.
  repeat (destruct Hin as [[= <- <-]|Hin];
          [eexists; split; vm_compute; reflexivity|]).
  contradiction.
Qed.




(** C6 (as amended) — [sample_pagerank] has no precondition check. On the
    empty graph it raises [ZeroDivisionError] (from [1/len(corpus)]), for
    every [n]; on a non-empty graph with [n = 0] it raises an exception,
    which is the [ZeroDivisionError] of [visited[webpage] / n] when
    [random.choices] accepts the weights of the first draw; on a non-empty
    graph with [n < 0] it does not fail because of [n]: when the first draw
    is accepted it returns the mapping that sends every page to [0 / n]. *)
Theorem sample_pagerank_precondition_failures :
  forall (num : Type) (F : PyFloat num) (G : Corpus) (d : num) (n : Z)
         (random : nat -> num),
    (G = [] -> sample_pagerank G d n random = raise ZeroDivisionError)
    /\ (G <> [] -> n = 0%Z ->
        exists e,
          sample_pagerank G d n random = raise e
          /\ (choices_accepts (repeat (uniform_prob G) (List.length G)) = true ->
              e = ZeroDivisionError))
    /\ (G <> [] -> NoDup (keys G) -> (n < 0)%Z ->
        choices_accepts (repeat (uniform_prob G) (List.length G)) = true ->
        sample_pagerank G d n random
        = ret (map (fun k => (k, fdiv (of_int 0) (of_int n))) (keys G))).
Proof.
  intros num F G d n random. split; [|split].
  - intros ->. apply sample_pagerank_empty.
  - intros Hne ->. now apply sample_pagerank_zero.
  - intros Hne Hnd Hn Hacc. now apply sample_pagerank_negative.
Qed.

Lemma sample_pagerank_precondition_failures_witness :
  sample_pagerank ([] : Corpus) DAMPING 10 (fun _ => 0.5%float)
  = raise ZeroDivisionError
  /\ sample_pagerank scenarioA DAMPING 0 (fun _ => 0.5%float)
     = raise ZeroDivisionError
  /\ sample_pagerank scenarioA DAMPING (-1) (fun _ => 0.5%float)
     = ret (map (fun k => (k, fdiv (of_int 0) (of_int (-1)))) (keys scenarioA)).
Proof.
  split; [|split].
  - apply (proj1 (sample_pagerank_precondition_failures float binary64 []
                    DAMPING 10 (fun _ => 0.5%float))).
    reflexivity.
  - destruct (proj1 (proj2 (sample_pagerank_precondition_failures float
                              binary64 scenarioA DAMPING 0
                              (fun _ => 0.5%float))))
      as [e [Hrun He]].
    + discriminate.
    + reflexivity.
    + rewrite Hrun, He; [reflexivity|]. vm_compute. reflexivity.
  - apply (proj2 (proj2 (sample_pagerank_precondition_failures float binary64
                           scenarioA DAMPING (-1) (fun _ => 0.5%float)))).
    + discriminate.
    + apply nodupb_NoDup. reflexivity.
    + lia.
    + vm_compute. reflexivity.
Defined.

(** C6, the claim as stated, fails: with [n = -1] on the two-page graph of
    Scenario A the sampler returns a mapping (every page has rank [-0.0])
    instead of failing. *)
Lemma sample_pagerank_negative_count_returns :
  sample_pagerank scenarioA DAMPING (-1) (fun _ => 0.5%float)
  = ret [("1.html", (-0)%float); ("2.html", (-0)%float)].
Proof. vm_compute. reflexivity. Qed.

(** C7 — [transition_model] fails only on a page that is not a key, and
    has no side effect. Run on any store in which [corpus] refers to the
    graph [G], for any page and any damping factor (in (0,1) or not), the
    call raises an exception if and only if the page is not a key of [G];
    when the page is a key it returns a reference to a new dict holding the
    distribution; and in all cases every object the store held before the
    call, the graph included, is unchanged after it. *)
Theorem transition_model_fails_only_on_missing_page :
  forall (num : Type) (F : PyFloat num) (h : store) (corpus : ref)
         (G : Corpus) (page : Page) (d : num) (h' : store) (r : result ref),
    nth_error h corpus = Some (OCorpus G) ->
    transition_model_store corpus page d h = (h', r) ->
    ((exists e, r = raise e) <-> ~ In page (keys G))
    /\ (In page (keys G) ->
        exists dist,
          transition_model G page d = ret dist
          /\ r = ret (List.length h)
          /\ nth_error h' (List.length h) = Some (ODist dist))
    /\ (forall a o, nth_error h a = Some o -> nth_error h' a = Some o).
Proof.
  intros num F h corpus G page d h' r Hcorpus Hrun.
  destruct (transition_model_store_refines h corpus G Hcorpus page d)
    as [acc [Hrefines Hacc]].
  rewrite Hrefines in Hrun. injection Hrun as <- <-.
  split; [|split].
  - split.
    + intros [e He] Hin.
      destruct (transition_model_returns G page d Hin) as [dist Hdist].
      rewrite Hdist in He. discriminate.
    + intros Hnin. rewrite (transition_model_missing G page d Hnin).
      now exists KeyError.
  - intros Hin.
    destruct (transition_model_returns G page d Hin) as [dist Hdist].
    exists dist. rewrite Hdist. split; [reflexivity|]. split; [reflexivity|].
    rewrite nth_error_app2, Nat.sub_diag by lia. simpl.
    now rewrite (Hacc dist Hdist).
  - intros a o Ha. rewrite nth_error_app1; [assumption|].
    apply nth_error_Some. congruence.
Qed.

Lemma transition_model_fails_only_on_missing_page_witness :
  (forall a o,
      nth_error [OCorpus (num := float) scenarioA] a = Some o ->
      nth_error
        (fst (transition_model_store 0 "1.html" DAMPING [OCorpus scenarioA]))
        a = Some o)
  /\ ((exists e,
          snd (transition_model_store 0 "3.html" DAMPING [OCorpus scenarioA])
          = raise e)
      <-> ~ In "3.html" (keys scenarioA)).
Proof.
  split.
  - apply (transition_model_fails_only_on_missing_page float binary64
             [OCorpus scenarioA] 0 scenarioA "1.html" DAMPING
             (fst (transition_model_store 0 "1.html" DAMPING
                     [OCorpus scenarioA]))
             (snd (transition_model_store 0 "1.html" DAMPING
                     [OCorpus scenarioA]))).
    + reflexivity.
    + apply surjective_pairing.
  - apply (transition_model_fails_only_on_missing_page float binary64
             [OCorpus scenarioA] 0 scenarioA "3.html" DAMPING
             (fst (transition_model_store 0 "3.html" DAMPING
                     [OCorpus scenarioA]))
             (snd (transition_model_store 0 "3.html" DAMPING
                     [OCorpus scenarioA]))).
    + reflexivity.
    + apply surjective_pairing.
Defined.




(** C9 — the single-page graph. In exact arithmetic, for every damping
    factor, every [n >= 1] and every random stream, [sample_pagerank]
    returns the mapping of ["1.html"] to [n/n], which is 1: the only page is
    drawn at every step. [iterate_pagerank], specified to return the same
    mapping, raises [NotImplementedError] instead. *)
Theorem single_page_estimators :
  forall (d : Q) (n : Z) (random : nat -> Q),
    (1 <= n)%Z ->
    (exists v : Q,
        sample_pagerank scenarioC d n random = ret [("1.html", v)]
        /\ (v == 1)%Q)
    /\ iterate_pagerank scenarioC d = raise NotImplementedError.
Proof.
  intros d n random Hn. split; [|reflexivity].
  destruct (sample_pagerank_exact scenarioC d n random eq_refl Hn)
    as [visited [Hrun [Hkeys [_ [_ Hsum]]]]].
  destruct visited as [|[k c] [|e visited]]; try discriminate.
  injection Hkeys as ->.
  exists (fdiv (of_int c) (of_int n)). split; [exact Hrun|].
  simpl in Hsum |- *. rewrite <- Hsum. ring.
Qed.

Lemma single_page_estimators_witness :
  (exists v : Q,
      sample_pagerank scenarioC (85 # 100)%Q 3 (fun _ => (1 # 2)%Q)
      = ret [("1.html", v)]
      /\ (v == 1)%Q)
  /\ iterate_pagerank scenarioC (85 # 100)%Q = raise NotImplementedError.
Proof.
  apply (single_page_estimators (85 # 100)%Q 3%Z (fun _ => (1 # 2)%Q)).
  lia.
Defined.

(** The same in binary64 for the sample counts of the program: the rank of
    the only page is the double 1.0. *)
Lemma single_page_binary64 :
  sample_pagerank scenarioC DAMPING 1 (fun _ => 0.5%float)
  = ret [("1.html", 1%float)]
  /\ sample_pagerank scenarioC DAMPING SAMPLES (fun _ => 0.5%float)
     = ret [("1.html", 1%float)].
Proof. split; vm_compute; reflexivity. Qed.

Lemma NoDup_keys_dict_set {V : Type} (d : dict V) (k : Page) (v : V) :
  NoDup (keys d) -> NoDup (keys (dict_set d k v)).
Proof.
  intros Hnd. destruct (in_dec string_dec k (keys d)) as [Hin|Hnin].
  - now rewrite keys_dict_set_present.
  - rewrite dict_set_fresh, keys_app by assumption. simpl.
    apply NoDup_app; [assumption | repeat constructor; simpl; tauto |].
    intros x Hx [<-|[]]. contradiction.
Qed.

Lemma crawl_first_loop_keys (findall_links : string -> list string)
  (directory : list (string * option string)) (pages : Corpus) :
  for_each directory
    (fun (pages : Corpus) entry =>
       let (filename, file) := entry in
       if negb (endswith filename ".html") then ret pages
       else
         match file with
         | None => raise OSError
         | Some contents =>
             let links := findall_links contents in
             ret (dict_set pages filename
                    (set_remove (set_of_list links) filename))
         end)
    [] = ret pages ->
  NoDup (keys pages).
Proof.
  apply (for_each_invariant (fun s : Corpus => NoDup (keys s))).
  - intros s [filename file] s' _ Hs Hbody.
    destruct (negb (endswith filename ".html")).
    + now injection Hbody as <-.
    + destruct file as [contents|]; [|discriminate].
      injection Hbody as <-. now apply NoDup_keys_dict_set.
  - constructor.
Qed.

(** C10 — every graph [crawl] returns satisfies the Link Graph invariant:
    its keys are distinct, no page appears in its own link set, and every
    page of every link set is a key of the graph. This holds for every
    directory and whatever links the regular expression extracts. *)
Theorem crawl_link_graph_invariant :
  forall (findall_links : string -> list string)
         (directory : list (string * option string)) (G : Corpus),
    crawl findall_links directory = ret G ->
    NoDup (keys G)
    /\ forall p links,
         In (p, links) G ->
         ~ In p links /\ (forall q, In q links -> In q (keys G)).
Proof.
  intros findall_links directory G Hrun. unfold crawl in Hrun.
  match type of Hrun with
  | bind ?first _ = _ => destruct first as [e|pages] eqn:Hfirst
  end; cbn [bind] in Hrun; [discriminate|].
  pose proof (crawl_first_loop findall_links directory pages Hfirst) as Hself.
  pose proof (crawl_first_loop_keys findall_links directory pages Hfirst) as Hnd.
  apply (crawl_second_loop (keys pages)) in Hrun.
  - destruct Hrun as [Hkeys [Hself' Hwithin]].
    split; [now rewrite Hkeys|].
    intros p links Hin.
    assert (Hget : dict_get G p = Some links).
    { apply NoDup_keys_dict_get; [now rewrite Hkeys | assumption]. }
    split; [now apply (Hself' p links)|].
    intros q Hq. rewrite Hkeys.
    assert (Hp : In p (keys pages)).
    { rewrite <- Hkeys. eapply dict_get_Some_In. eassumption. }
    exact (Hwithin p Hp links Hget q Hq).
  - apply incl_refl.
  - reflexivity.
  - assumption.
  - intros p Hp Hnp. contradiction.
Qed.

Lemma crawl_link_graph_invariant_witness :
  crawl (fun contents => ["b.html"; "a.html"; "missing.html"; contents])
    [("a.html", Some "b.html"); ("b.html", Some "a.html"); ("notes.txt", None)]
  = ret [("a.html", ["b.html"]); ("b.html", ["a.html"])]
  /\ NoDup (keys [("a.html", ["b.html"]); ("b.html", ["a.html"])])
  /\ ~ In "a.html" ["b.html"].
Proof.
  assert (Hrun :
    crawl (fun contents => ["b.html"; "a.html"; "missing.html"; contents])
      [("a.html", Some "b.html"); ("b.html", Some "a.html");
       ("notes.txt", None)]
    = ret [("a.html", ["b.html"]); ("b.html", ["a.html"])]).
  { vm_compute. reflexivity. }
  destruct (crawl_link_graph_invariant _ _ _ Hrun) as [Hnd Hlinks].
  split; [exact Hrun|]. split; [exact Hnd|].
  apply (Hlinks "a.html" ["b.html"]). simpl. tauto.
Defined.

(* ================================================================= *)
(** * Further properties of the code *)

(* ================================================================= *)
(** ** File names and [endswith] *)

Lemma string_length_append (a b : string) :
  String.length (a ++ b) = (String.length a + String.length b)%nat.
Proof. induction a as [|c a IH]; simpl; [reflexivity | now rewrite IH]. Qed.

Lemma substring_whole (s : string) : substring 0 (String.length s) s = s.
Proof. induction s as [|c s IH]; simpl; [reflexivity | now rewrite IH]. Qed.

Lemma substring_append_skip (a b : string) (m : nat) :
  substring (String.length a) m (a ++ b) = substring 0 m b.
Proof. induction a as [|c a IH]; simpl; [reflexivity | exact IH]. Qed.

Lemma substring_split (s : string) (k : nat) :
  (k <= String.length s)%nat ->
  s = (substring 0 k s ++ substring k (String.length s - k) s)%string.
Proof.
  revert k. induction s as [|c s IH]; intros k Hk.
  - destruct k; reflexivity.
  - destruct k as [|k]; simpl.
    + now rewrite substring_whole.
    + simpl in Hk. rewrite <- IH by lia. reflexivity.
Qed.

(** [endswith] is the test that the string is some stem followed by the
    suffix. *)
Lemma endswith_spec (s suffix : string) :
  endswith s suffix = true <-> exists stem, s = (stem ++ suffix)%string.
Proof.
  unfold endswith. rewrite andb_true_iff, Nat.leb_le, String.eqb_eq. split.
  - intros [Hle Hsub].
    exists (substring 0 (String.length s - String.length suffix) s).
    pose proof (substring_split s (String.length s - String.length suffix))
      as Hs.
    replace (String.length s - (String.length s - String.length suffix))%nat
      with (String.length suffix) in Hs by lia.
    rewrite Hsub in Hs. apply Hs. lia.
  - intros [stem ->]. rewrite string_length_append. split; [lia|].
    replace (String.length stem + String.length suffix - String.length suffix)%nat
      with (String.length stem) by lia.
    rewrite substring_append_skip. apply substring_whole.
Qed.

(* ================================================================= *)
(** ** crawl: which pages and which links *)

Lemma dict_mem_same_keys {V W : Type} (a : dict V) (b : dict W) (q : Page) :
  keys a = keys b -> dict_mem a q = dict_mem b q.
Proof.
  intros Hk. destruct (dict_mem a q) eqn:Ea, (dict_mem b q) eqn:Eb;
    try reflexivity.
  - apply dict_mem_In in Ea. rewrite Hk in Ea. apply dict_mem_In in Ea.
    congruence.
  - apply dict_mem_In in Eb. rewrite <- Hk in Eb. apply dict_mem_In in Eb.
    congruence.
Qed.

Lemma set_of_list_In (l : list Page) (x : Page) :
  In x (set_of_list l) <-> In x l.
Proof. apply nodup_In. Qed.

Lemma NoDup_set_remove (s : pyset) (x : Page) :
  NoDup s -> NoDup (set_remove s x).
Proof. apply NoDup_filter. Qed.

Section CrawlLoops.

Variable findall_links : string -> list string.

Local Abbreviation read_page :=
  (fun (pages : Corpus) (entry : string * option string) =>
     let (filename, file) := entry in
     if negb (endswith filename ".html") then ret pages
     else
       match file with
       | None => raise OSError
       | Some contents =>
           let links := findall_links contents in
           ret (dict_set pages filename
                  (set_remove (set_of_list links) filename))
       end).

Local Abbreviation keep_links :=
  (fun (pages : Corpus) (filename : Page) =>
     links <- getitem pages filename ;;
     ret (dict_set pages filename
            (filter (fun link => dict_mem pages link) links))).

Lemma crawl_loops (directory : list (string * option string)) :
  crawl findall_links directory
  = (pages <- for_each directory read_page [] ;;
     for_each (keys pages) keep_links pages).
Proof. reflexivity. Qed.

(** The first loop adds the names that end in [.html], in order. *)
Lemma first_loop_keys (directory : list (string * option string)) :
  forall (acc pages : Corpus),
    NoDup (map fst directory) ->
    (forall name, In name (map fst directory) -> ~ In name (keys acc)) ->
    for_each directory read_page acc = ret pages ->
    keys pages
    = keys acc
      ++ filter (fun name => endswith name ".html") (map fst directory).
Proof.
  induction directory as [|[name file] directory IH];
    intros acc pages Hnd Hfresh Hrun.
  - simpl in Hrun. injection Hrun as <-. simpl. now rewrite app_nil_r.
  - cbn [for_each] in Hrun. simpl in Hnd. inversion Hnd as [|? ? Hname Hnd'].
    subst. cbn [map fst filter].
    destruct (endswith name ".html") eqn:E; cbn [negb] in Hrun.
    + destruct file as [contents|]; [|discriminate]. cbn [bind ret] in Hrun.
      apply IH in Hrun; [|assumption|].
      * rewrite Hrun, dict_set_fresh, keys_app, <- app_assoc.
        -- reflexivity.
        -- apply Hfresh. now left.
      * intros n Hn. rewrite dict_set_fresh, keys_app, in_app_iff.
        -- simpl. intros [H|[H|[]]]; [|congruence].
           revert H. apply Hfresh. now right.
        -- apply Hfresh. now left.
    + cbn [bind ret] in Hrun. apply IH in Hrun; [assumption | assumption |].
      intros n Hn. apply Hfresh. now right.
Qed.

(** The first loop stores, for every readable page, the set of the links
    found in it other than the page itself, and touches no other key. *)
Lemma first_loop_get (directory : list (string * option string)) :
  forall (acc pages : Corpus),
    NoDup (map fst directory) ->
    for_each directory read_page acc = ret pages ->
    (forall p contents,
        In (p, Some contents) directory ->
        endswith p ".html" = true ->
        dict_get pages p
        = Some (set_remove (set_of_list (findall_links contents)) p))
    /\ (forall p,
           (forall file, In (p, file) directory -> endswith p ".html" = false) ->
           dict_get pages p = dict_get acc p).
Proof.
  induction directory as [|[name file] directory IH]; intros acc pages Hnd Hrun.
  - simpl in Hrun. injection Hrun as <-. split; [intros p c [] | reflexivity].
  - cbn [for_each] in Hrun. simpl in Hnd. inversion Hnd as [|? ? Hname Hnd'].
    subst.
    destruct (endswith name ".html") eqn:E; cbn [negb] in Hrun.
    + destruct file as [contents|]; [|discriminate]. cbn [bind ret] in Hrun.
      destruct (IH _ _ Hnd' Hrun) as [Hpages Hother]. split.
      * intros p c [[= -> ->]|Hin] Hp; [|now apply Hpages].
        rewrite Hother.
        -- now rewrite dict_get_set, String.eqb_refl.
        -- intros file Hfile. exfalso. apply Hname.
           change p with (fst (p, file)). now apply in_map.
      * intros p Hp. rewrite Hother.
        -- rewrite dict_get_set. destruct (String.eqb p name) eqn:Epn;
             [|reflexivity].
           apply String.eqb_eq in Epn. subst p.
           rewrite (Hp (Some contents)) in E by now left. discriminate.
        -- intros f Hf. apply (Hp f). now right.
    + cbn [bind ret] in Hrun.
      destruct (IH _ _ Hnd' Hrun) as [Hpages Hother]. split.
      * intros p c [[= -> ->]|Hin] Hp; [congruence | now apply Hpages].
      * intros p Hp. apply Hother. intros f Hf. apply (Hp f). now right.
Qed.

(** The second loop keeps, in every link set, the links that are keys. *)
Lemma second_loop_get (pages0 : Corpus) :
  forall (rest : list Page) (cur final : Corpus),
    NoDup rest ->
    incl rest (keys pages0) ->
    keys cur = keys pages0 ->
    (forall p, In p rest -> dict_get cur p = dict_get pages0 p) ->
    for_each rest keep_links cur = ret final ->
    (forall p links,
        In p rest -> dict_get pages0 p = Some links ->
        dict_get final p = Some (filter (dict_mem pages0) links))
    /\ (forall p, ~ In p rest -> dict_get final p = dict_get cur p).
Proof.
  induction rest as [|f rest IH]; intros cur final Hnd Hincl Hkeys Hsame Hrun.
  - simpl in Hrun. injection Hrun as <-. split; [intros p l [] | reflexivity].
  - cbn [for_each] in Hrun. inversion Hnd as [|? ? Hf Hnd']. subst.
    assert (Hin : In f (keys cur)).
    { rewrite Hkeys. apply Hincl. now left. }
    destruct (getitem_present cur f Hin) as [l [Hitem Hget]].
    rewrite Hitem in Hrun. cbn [bind ret] in Hrun.
    apply IH in Hrun; [| assumption | | |].
    + destruct Hrun as [Hdone Hother]. split.
      * intros p links [<-|Hp] Hp0.
        -- rewrite (Hother f Hf), dict_get_set, String.eqb_refl.
           rewrite (Hsame f (or_introl eq_refl)), Hp0 in Hget.
           injection Hget as <-. f_equal. apply filter_ext.
           intros q. now apply dict_mem_same_keys.
        -- now apply Hdone.
      * intros p Hp. rewrite Hother by (simpl in Hp; tauto).
        rewrite dict_get_set.
        destruct (String.eqb p f) eqn:E; [|reflexivity].
        apply String.eqb_eq in E. subst. simpl in Hp. tauto.
    + intros x Hx. apply Hincl. now right.
    + rewrite keys_dict_set_present; assumption.
    + intros p Hp. rewrite dict_get_set.
      destruct (String.eqb p f) eqn:E.
      * apply String.eqb_eq in E. subst. contradiction.
      * apply Hsame. now right.
Qed.

End CrawlLoops.

(** Name the result of the first loop of a returning [crawl]. *)
Ltac crawl_first_result Hrun pages Hfirst :=
  rewrite crawl_loops in Hrun;
  match type of Hrun with
  | bind ?first _ = _ => destruct first as [?|pages] eqn:Hfirst
  end;
  cbn [bind] in Hrun; [discriminate|].

(** [crawl] makes a page of every directory entry whose name ends in
    [.html], in the order of the listing, and of nothing else. *)
Theorem crawl_pages :
  forall (findall_links : string -> list string)
         (directory : list (string * option string)) (G : Corpus),
    NoDup (map fst directory) ->
    crawl findall_links directory = ret G ->
    keys G = filter (fun name => endswith name ".html") (map fst directory)
    /\ forall name,
         In name (keys G)
         <-> In name (map fst directory)
             /\ exists stem, name = (stem ++ ".html")%string.
Proof.
  intros findall_links directory G Hnd Hrun.
  crawl_first_result Hrun pages Hfirst.
  pose proof (crawl_first_loop findall_links directory pages Hfirst) as Hself.
  apply (crawl_second_loop (keys pages)) in Hrun;
    [| apply incl_refl | reflexivity | assumption
     | intros p Hp Hnp; contradiction].
  destruct Hrun as [Hkeys _].
  apply first_loop_keys in Hfirst; [| assumption | intros n _ []].
  simpl in Hfirst.
  assert (Hk : keys G
               = filter (fun name => endswith name ".html") (map fst directory)).
  { now rewrite Hkeys. }
  split; [exact Hk|].
  intros name. rewrite Hk, filter_In, endswith_spec. reflexivity.
Qed.

Lemma crawl_pages_witness :
  keys [("a.html", ["b.html"]); ("b.html", ["a.html"])]
  = filter (fun name => endswith name ".html") (map fst example_directory).
Proof.
  apply (crawl_pages example_findall example_directory
           [("a.html", ["b.html"]); ("b.html", ["a.html"])]).
  - apply nodupb_NoDup. reflexivity.
  - vm_compute. reflexivity.
Defined.

(** The links [crawl] records for a page are exactly the links found in
    the page's text that are other pages of the directory, each once. *)
Theorem crawl_links :
  forall (findall_links : string -> list string)
         (directory : list (string * option string)) (G : Corpus)
         (p : Page) (contents : string),
    NoDup (map fst directory) ->
    crawl findall_links directory = ret G ->
    In (p, Some contents) directory ->
    endswith p ".html" = true ->
    exists links,
      dict_get G p = Some links
      /\ NoDup links
      /\ forall q,
           In q links
           <-> In q (findall_links contents) /\ q <> p /\ In q (keys G).
Proof.
  intros findall_links directory G p contents Hnd Hrun Hin Hp.
  crawl_first_result Hrun pages Hfirst.
  pose proof (crawl_first_loop findall_links directory pages Hfirst) as Hself.
  pose proof (crawl_first_loop_keys findall_links directory pages Hfirst)
    as Hndk.
  destruct (first_loop_get findall_links directory [] pages Hnd Hfirst)
    as [Hpages _].
  specialize (Hpages p contents Hin Hp).
  pose proof Hrun as Hrun'.
  apply (crawl_second_loop (keys pages)) in Hrun';
    [| apply incl_refl | reflexivity | assumption
     | intros x Hx Hnx; contradiction].
  destruct Hrun' as [Hkeys _].
  apply (second_loop_get findall_links pages) in Hrun;
    [| assumption | apply incl_refl | reflexivity | reflexivity].
  destruct Hrun as [Hdone _].
  exists (filter (dict_mem pages)
            (set_remove (set_of_list (findall_links contents)) p)).
  split; [|split].
  - apply Hdone; [|assumption]. eapply dict_get_Some_In. eassumption.
  - apply NoDup_filter, NoDup_set_remove, NoDup_nodup.
  - intros q. rewrite filter_In, set_remove_In, set_of_list_In, dict_mem_In.
    rewrite Hkeys. tauto.
Qed.

Lemma crawl_links_witness :
  exists links,
    dict_get [("a.html", ["b.html"]); ("b.html", ["a.html"])] "a.html"
    = Some links
    /\ forall q,
         In q links
         <-> In q (example_findall "page a") /\ q <> "a.html"
             /\ In q (keys [("a.html", ["b.html"]); ("b.html", ["a.html"])]).
Proof.
  destruct (crawl_links example_findall example_directory
              [("a.html", ["b.html"]); ("b.html", ["a.html"])]
              "a.html" "page a")
    as [links [Hget [_ Hlinks]]].
  - apply nodupb_NoDup. reflexivity.
  - vm_compute. reflexivity.
  - simpl. tauto.
  - reflexivity.
  - exists links. split; [exact Hget | exact Hlinks].
Defined.

(* ================================================================= *)
(** ** crawl: failure, files that are not pages, and what it hands on *)

Lemma for_each_skip {A St : Type} (keep : A -> bool)
  (body : St -> A -> result St) (l : list A) :
  (forall s x, keep x = false -> body s x = ret s) ->
  forall s, for_each l body s = for_each (filter keep l) body s.
Proof.
  intros Hskip. induction l as [|x l IH]; intros s; simpl; [reflexivity|].
  destruct (keep x) eqn:E; simpl.
  - destruct (body s x); simpl; [reflexivity | apply IH].
  - rewrite (Hskip s x E). simpl. apply IH.
Qed.



(** [crawl] never looks at an entry whose name does not end in [.html]:
    dropping such entries from the directory does not change the result. *)
Theorem crawl_ignores_other_files :
  forall (findall_links : string -> list string)
         (directory : list (string * option string)),
    crawl findall_links directory
    = crawl findall_links
        (filter (fun entry => endswith (fst entry) ".html") directory).
Proof.
  intros findall_links directory. rewrite !crawl_loops.
  rewrite (for_each_skip (fun entry => endswith (fst entry) ".html"));
    [reflexivity|].
  intros s [name file] Hskip. simpl in Hskip. now rewrite Hskip.
Qed.





(* ================================================================= *)
(** ** transition_model: what it reads, and graphs outside the invariant *)

(** [transition_model] reads the keys of the graph and the link set of the
    current page, never the link sets of the other pages: two graphs with
    the same pages that agree on the links of [page] give the same
    result. *)
Theorem transition_model_reads_one_link_set :
  forall (num : Type) (F : PyFloat num) (G G' : Corpus) (page : Page)
         (d : num),
    keys G = keys G' ->
    dict_get G page = dict_get G' page ->
    transition_model G page d = transition_model G' page d.
Proof.
  intros num F G G' page d Hkeys Hpage.
  assert (Hlen : len G = len G').
  { now rewrite <- (len_keys G), <- (len_keys G'), Hkeys. }
  unfold transition_model, getitem. now rewrite Hpage, Hkeys, Hlen.
Qed.

Lemma transition_model_reads_one_link_set_witness :
  transition_model scenarioA "2.html" DAMPING
  = transition_model scenarioB "2.html" DAMPING.
Proof.
  apply (transition_model_reads_one_link_set float binary64 scenarioA scenarioB
           "2.html" DAMPING).
  - reflexivity.
  - reflexivity.
Defined.

(** In exact arithmetic, with a damping factor strictly between 0 and 1,
    every page of the graph gets a strictly positive probability, never
    below the share [(1-d)/N] of the random jump, whatever the current
    page links to. *)
Theorem transition_model_reaches_every_page :
  forall (G : Corpus) (page : Page) (d : Q),
    In page (keys G) ->
    (0 < d)%Q -> (d < 1)%Q ->
    exists dist : dict Q,
      transition_model G page d = ret dist
      /\ forall q,
           In q (keys G) ->
           exists v,
             dict_get dist q = Some v
             /\ (0 < v)%Q
             /\ ((1 - d) / inject_Z (len G) <= v)%Q.
Proof.
  intros G page d Hin Hd0 Hd1.
  assert (Hne : G <> []) by (destruct G; [destruct Hin | discriminate]).
  pose proof (inject_len_pos G Hne) as HN.
  assert (Hr : (0 < (1 - d) / inject_Z (len G))%Q).
  { apply Qlt_shift_div_l; [assumption|]. rewrite Qmult_0_l. lra. }
  destruct (dict_get G page) as [[|l links]|] eqn:Hget.
  - destruct (for_each_assign_get (fun _ => true) (uniform_prob G) (keys G) [])
      as [dist [Hrun Hlook]].
    exists dist. split.
    + unfold transition_model, getitem. rewrite Hget. simpl.
      simpl in Hrun. rewrite <- Hrun. apply for_each_ext.
      intros s x _. unfold truediv_ii.
      now rewrite (len_nonempty G page Hin).
    + intros q Hq. exists (uniform_prob G). rewrite Hlook.
      apply mem_In in Hq. rewrite Hq. split; [reflexivity|].
      unfold uniform_prob. simpl. change (inject_Z 1) with 1%Q.
      assert (H1 : ((1 - d) / inject_Z (len G) <= 1 / inject_Z (len G))%Q).
      { apply Qmult_le_compat_r; [lra|].
        apply Qlt_le_weak, Qinv_lt_0_compat. assumption. }
      split; [|assumption]. lra.
  - set (L := l :: links) in *.
    assert (HneL : L <> []) by discriminate.
    pose proof (inject_len_pos L HneL) as HL. clearbody L.
    destruct (transition_model_linked_get G page d L Hget HneL)
      as [dist [Hrun Hlook]].
    exists dist. split; [assumption|].
    intros q Hq. rewrite Hlook. apply mem_In in Hq. rewrite Hq.
    assert (Hl : (0 < d / inject_Z (len L))%Q).
    { apply Qlt_shift_div_l; [assumption|]. rewrite Qmult_0_l. lra. }
    unfold linked_prob, random_prob. simpl. change (inject_Z 1) with 1%Q.
    destruct (mem q L); eexists; (split; [reflexivity|]); split; lra.
  - apply dict_get_None in Hget. contradiction.
Qed.

Lemma transition_model_reaches_every_page_witness :
  exists dist : dict Q,
    transition_model scenarioB "2.html" (85 # 100)%Q = ret dist
    /\ exists v, dict_get dist "2.html" = Some v /\ (0 < v)%Q.
Proof.
  destruct (transition_model_reaches_every_page scenarioB "2.html" (85 # 100)%Q)
    as [dist [Hrun Hall]].
  - simpl. tauto.
  - reflexivity.
  - reflexivity.
  - exists dist. split; [exact Hrun|].
    destruct (Hall "2.html") as [v [Hv [Hpos _]]]; [simpl; tauto|].
    exists v. split; [exact Hv | exact Hpos].
Defined.

Lemma length_filter_partition {A : Type} (f : A -> bool) (l : list A) :
  (List.length (filter f l) + List.length (filter (fun x => negb (f x)) l)
   = List.length l)%nat.
Proof.
  induction l as [|x l IH]; simpl; [reflexivity|].
  destruct (f x); simpl; lia.
Qed.

(** Counting the links inside and outside the graph. *)
Lemma links_and_pages_count (L K : list Page) :
  NoDup L -> NoDup K ->
  (List.length (filter (fun k => negb (mem k L)) K) + List.length L
   = List.length K + List.length (filter (fun q => negb (mem q K)) L))%nat.
Proof.
  intros HL HK.
  pose proof (length_filter_partition (fun k => mem k L) K) as H1.
  pose proof (length_filter_partition (fun q => mem q K) L) as H2.
  assert (HP : Permutation (filter (fun k => mem k L) K)
                 (filter (fun q => mem q K) L)).
  { apply NoDup_Permutation; try now apply NoDup_filter.
    intros x. rewrite !filter_In, !mem_In. tauto. }
  apply Permutation_length in HP. lia.
Qed.

(** On a graph that breaks the invariant, where the current page links to
    [k] pages that are not keys of the graph, the values of the result sum,
    in exact arithmetic, to [1 + (1-d) * k / N]: every foreign target is
    given the full probability of a linked page on top of the total mass
    1. With no foreign target the sum is 1. *)
Theorem transition_model_mass_with_foreign_links :
  forall (G : Corpus) (page : Page) (d : Q) (L : pyset),
    NoDup (keys G) ->
    NoDup L ->
    dict_get G page = Some L ->
    L <> [] ->
    exists dist : dict Q,
      transition_model G page d = ret dist
      /\ keys dist = L ++ filter (fun k => negb (mem k L)) (keys G)
      /\ (Qsum (values dist)
          == 1 + (1 - d)
                 * inject_Z (len (filter (fun q => negb (mem q (keys G))) L))
                 / inject_Z (len G))%Q.
Proof.
  intros G page d L Hnd HndL Hget HneL.
  assert (Hne : G <> []).
  { destruct G; [discriminate | discriminate]. }
  pose proof (inject_len_pos G Hne) as HN.
  pose proof (inject_len_pos L HneL) as HL.
  eexists. split.
  { apply (transition_model_linked_eq G page d L); assumption. }
  rewrite keys_app, !keys_map_pair. split; [reflexivity|].
  pose proof (links_and_pages_count L (keys G) HndL Hnd) as Hcount.
  set (R := filter (fun k => negb (mem k L)) (keys G)) in *.
  set (Fo := filter (fun q => negb (mem q (keys G))) L) in *.
  assert (HR : (inject_Z (len R)
                == inject_Z (len G) + inject_Z (len Fo) - inject_Z (len L))%Q).
  { rewrite <- (len_keys G). unfold len, Qminus.
    rewrite <- inject_Z_opp, <- !inject_Z_plus.
    apply inject_Z_injective. lia. }
  clearbody R Fo.
  unfold values. rewrite map_app, !map_map. simpl.
  rewrite Qsum_app, !Qsum_const, HR.
  unfold linked_prob, random_prob. simpl. change (inject_Z 1) with 1%Q.
  field. split; intros H.
  - rewrite H in HN. now apply Qlt_irrefl in HN.
  - rewrite H in HL. now apply Qlt_irrefl in HL.
Qed.

Lemma transition_model_mass_with_foreign_links_witness :
  exists dist : dict Q,
    transition_model [("a.html", ["b.html"; "gone.html"]); ("b.html", [])]
      "a.html" (1 # 2)%Q = ret dist
    /\ keys dist = ["b.html"; "gone.html"; "a.html"]
    /\ (Qsum (values dist) == 1 + (1 - (1 # 2)) * 1 / 2)%Q.
Proof.
  destruct (transition_model_mass_with_foreign_links
              [("a.html", ["b.html"; "gone.html"]); ("b.html", [])]
              "a.html" (1 # 2)%Q ["b.html"; "gone.html"])
    as [dist [Hrun [Hkeys Hsum]]].
  - apply nodupb_NoDup. reflexivity.
  - apply nodupb_NoDup. reflexivity.
  - reflexivity.
  - discriminate.
  - exists dist. split; [exact Hrun|]. split; [exact Hkeys | exact Hsum].
Defined.

(** Every call of [transition_model] builds a dict of its own. After two
    calls on the same store, for pages of the graph, the two results are
    two different objects, and the second call has left the first result
    as it was. *)
Theorem transition_model_results_do_not_alias :
  forall (num : Type) (F : PyFloat num) (h h1 h2 : store) (corpus : ref)
         (G : Corpus) (p1 p2 : Page) (d1 d2 : num) (r1 r2 : result ref),
    nth_error h corpus = Some (OCorpus G) ->
    In p1 (keys G) ->
    In p2 (keys G) ->
    transition_model_store corpus p1 d1 h = (h1, r1) ->
    transition_model_store corpus p2 d2 h1 = (h2, r2) ->
    exists (a1 a2 : ref) (dist1 dist2 : dict num),
      r1 = ret a1 /\ r2 = ret a2 /\ a1 <> a2
      /\ transition_model G p1 d1 = ret dist1
      /\ transition_model G p2 d2 = ret dist2
      /\ nth_error h2 a1 = Some (ODist dist1)
      /\ nth_error h2 a2 = Some (ODist dist2).
Proof.
  intros num F h h1 h2 corpus G p1 p2 d1 d2 r1 r2 Hc Hp1 Hp2 Hrun1 Hrun2.
  destruct (transition_model_returns G p1 d1 Hp1) as [dist1 Hd1].
  destruct (transition_model_returns G p2 d2 Hp2) as [dist2 Hd2].
  destruct (transition_model_store_refines h corpus G Hc p1 d1)
    as [acc1 [Href1 Hacc1]].
  rewrite Href1, Hd1 in Hrun1. injection Hrun1 as <- <-.
  rewrite (Hacc1 dist1 Hd1) in *.
  assert (Hc1 : nth_error (h ++ [ODist dist1]) corpus = Some (OCorpus G)).
  { rewrite nth_error_app1; [assumption|]. apply nth_error_Some. congruence. }
  destruct (transition_model_store_refines (h ++ [ODist dist1]) corpus G Hc1
              p2 d2)
    as [acc2 [Href2 Hacc2]].
  rewrite Href2, Hd2 in Hrun2. injection Hrun2 as <- <-.
  rewrite (Hacc2 dist2 Hd2).
  exists (List.length h), (List.length (h ++ [ODist dist1])), dist1, dist2.
  repeat split; try assumption.
  - rewrite length_app. simpl. lia.
  - rewrite nth_error_app1 by (rewrite length_app; simpl; lia).
    now rewrite nth_error_app2, Nat.sub_diag by lia.
  - now rewrite nth_error_app2, Nat.sub_diag by lia.
Qed.

Lemma transition_model_results_do_not_alias_witness :
  exists (a1 a2 : ref) (dist1 dist2 : dict float),
    a1 <> a2
    /\ nth_error
         (fst (transition_model_store 0 "2.html" DAMPING
                 (fst (transition_model_store 0 "1.html" DAMPING
                         [OCorpus scenarioA]))))
         a1 = Some (ODist dist1)
    /\ transition_model scenarioA "1.html" DAMPING = ret dist1.
Proof.
  destruct (transition_model_results_do_not_alias float binary64
              [OCorpus scenarioA]
              (fst (transition_model_store 0 "1.html" DAMPING
                      [OCorpus scenarioA]))
              (fst (transition_model_store 0 "2.html" DAMPING
                      (fst (transition_model_store 0 "1.html" DAMPING
                              [OCorpus scenarioA]))))
              0%nat scenarioA "1.html" "2.html" DAMPING DAMPING
              (snd (transition_model_store 0 "1.html" DAMPING
                      [OCorpus scenarioA]))
              (snd (transition_model_store 0 "2.html" DAMPING
                      (fst (transition_model_store 0 "1.html" DAMPING
                              [OCorpus scenarioA])))))
    as [a1 [a2 [dist1 [dist2 [_ [_ [Hne [Hd1 [_ [Hn1 _]]]]]]]]]].
  - reflexivity.
  - simpl. tauto.
  - simpl. tauto.
  - apply surjective_pairing.
  - apply surjective_pairing.
  - exists a1, a2, dist1, dist2. split; [exact Hne|].
    split; [exact Hn1 | exact Hd1].
Defined.

(* ================================================================= *)
(** ** sample_pagerank: its ranks and its use of the random stream *)

Lemma for_range_ext {St : Type} (f g : St -> nat -> result St) :
  forall (count start : nat) (s : St),
    (forall s' i, (start <= i < start + count)%nat -> f s' i = g s' i) ->
    for_range start count f s = for_range start count g s.
Proof.
  induction count as [|count IH]; intros start s H; simpl; [reflexivity|].
  rewrite H by lia. destruct (g s start); simpl; [reflexivity|].
  apply IH. intros s' i Hi. apply H. lia.
Qed.

Lemma for_range_invariant {St : Type} (P : St -> Prop)
  (body : St -> nat -> result St) :
  (forall s i s', P s -> body s i = ret s' -> P s') ->
  forall (count start : nat) (s s' : St),
    P s -> for_range start count body s = ret s' -> P s'.
Proof.
  intros Hbody. induction count as [|count IH]; intros start s s' Hs Hrun;
    simpl in Hrun.
  - now injection Hrun as <-.
  - destruct (body s start) as [e|s1] eqn:E; simpl in Hrun; [discriminate|].
    apply (IH (S start) s1 s'); [|assumption]. now apply (Hbody s start).
Qed.




(** The sampler calls [random.random()] once for the starting page and
    once per step: [n] samples depend on the first [n + 1] values of the
    random stream only. *)
Theorem sample_pagerank_uses_n_plus_one_randoms :
  forall (num : Type) (F : PyFloat num) (G : Corpus) (d : num) (n : Z)
         (random random' : nat -> num),
    (forall i, (i <= Z.to_nat n)%nat -> random i = random' i) ->
    sample_pagerank G d n random = sample_pagerank G d n random'.
Proof.
  intros num F G d n random random' Hsame. unfold sample_pagerank.
  destruct (truediv_ii 1 (len G)) as [e|p]; cbn [bind]; [reflexivity|].
  rewrite (Hsame O) by lia.
  destruct (choices (keys G) (repeat p (List.length G)) (random' O))
    as [e|first]; cbn [bind]; [reflexivity|].
  rewrite (for_range_ext _
             (fun (st : Page * dict Z) sample =>
                let (choice, visited) := st in
                prob <- transition_model G choice d ;;
                choice <- choices (keys prob) (values prob)
                            (random' (S sample)) ;;
                count <- getitem visited choice ;;
                ret (choice, dict_set visited choice (count + 1)%Z))).
  - reflexivity.
  - intros [choice visited] i Hi. rewrite (Hsame (S i)) by lia. reflexivity.
Qed.

Lemma sample_pagerank_uses_n_plus_one_randoms_witness :
  sample_pagerank scenarioA DAMPING 3
    (fun i => if (i <=? 3)%nat then 0.5%float else 0.25%float)
  = sample_pagerank scenarioA DAMPING 3 (fun _ => 0.5%float).
Proof.
  apply (sample_pagerank_uses_n_plus_one_randoms float binary64 scenarioA
           DAMPING 3).
  intros i Hi. simpl in Hi.
  destruct (Nat.leb_spec i 3) as [_|Hgt]; [reflexivity | lia].
Defined.

(** When the sampler returns, whatever the graph and the arithmetic, its
    result holds one rank per key of the corpus, in the order of the
    corpus. *)
Lemma sample_pagerank_returned_keys {num : Type} {F : PyFloat num}
  (G : Corpus) (d : num) (n : Z) (random : nat -> num) (ranks : dict num) :
  NoDup (keys G) ->
  sample_pagerank G d n random = ret ranks ->
  exists visited : dict Z,
    ranks = map (rank_of n) visited /\ keys visited = keys G.
Proof.
  intros Hnd Hrun.
  assert (Hne : G <> []).
  { intros ->. rewrite sample_pagerank_empty in Hrun. discriminate. }
  assert (Hn : n <> 0%Z).
  { intros ->. destruct (sample_pagerank_zero G d random Hne) as [e [He _]].
    rewrite He in Hrun. discriminate. }
  unfold sample_pagerank in Hrun.
  destruct (truediv_ii 1 (len G)) as [e|p]; cbn [bind] in Hrun; [discriminate|].
  destruct (choices (keys G) (repeat p (List.length G)) (random O))
    as [e|first]; cbn [bind] in Hrun; [discriminate|].
  rewrite fold_left_init_counters in Hrun;
    [| assumption | intros k _; simpl; tauto].
  cbn [app] in Hrun.
  match type of Hrun with
  | bind ?walk _ = _ => destruct walk as [e|[choice visited]] eqn:Hwalk
  end; cbn [bind snd] in Hrun; [discriminate|].
  assert (Hkeys : keys visited = keys G).
  { apply (for_range_invariant
             (fun st : Page * dict Z => keys (snd st) = keys G)) in Hwalk.
    - exact Hwalk.
    - intros [c v] i [c' v'] Hv Hbody. simpl in Hv |- *.
      destruct (transition_model G c d) as [e|prob]; cbn [bind] in Hbody;
        [discriminate|].
      destruct (choices (keys prob) (values prob) (random (S i))) as [e|next];
        cbn [bind] in Hbody; [discriminate|].
      unfold getitem in Hbody.
      destruct (dict_get v next) as [count|] eqn:Hget; cbn [bind ret] in Hbody;
        [|discriminate].
      injection Hbody as <- <-.
      rewrite keys_dict_set_present; [assumption|].
      eapply dict_get_Some_In. eassumption.
    - apply keys_map_pair. }
  exists visited. split; [|assumption].
  rewrite (ranks_loop visited n Hn visited []) in Hrun.
  - now injection Hrun as <-.
  - intros k c Hkc. apply NoDup_keys_dict_get; [now rewrite Hkeys | assumption].
  - now rewrite Hkeys.
  - intros k _. simpl. tauto.
Qed.

(* ================================================================= *)
(** ** main *)

Lemma insert_sorted_Permutation (x : string) (l : list string) :
  Permutation (insert_sorted x l) (x :: l).
Proof.
  induction l as [|y l IH]; simpl; [reflexivity|].
  destruct (String.leb x y); [reflexivity|].
  rewrite IH. apply perm_swap.
Qed.

Lemma sorted_Permutation (l : list string) : Permutation (sorted l) l.
Proof.
  induction l as [|x l IH]; simpl; [reflexivity|].
  rewrite insert_sorted_Permutation. now constructor.
Qed.

Lemma insert_sorted_Sorted (x : string) (l : list string) :
  Sorted (fun a b => String.leb a b = true) l ->
  Sorted (fun a b => String.leb a b = true) (insert_sorted x l).
Proof.
  induction l as [|y l IH]; intros Hl; simpl.
  - repeat constructor.
  - destruct (String.leb x y) eqn:E.
    + constructor; [assumption | now constructor].
    + apply Sorted_inv in Hl. destruct Hl as [Hl Hhd].
      constructor; [now apply IH|].
      assert (Hyx : String.leb y x = true).
      { destruct (String.leb_total x y) as [H|H]; [congruence | assumption]. }
      destruct l as [|z l]; simpl.
      * now constructor.
      * destruct (String.leb x z); constructor; [assumption|].
        now apply HdRel_inv in Hhd.
Qed.

Lemma sorted_Sorted (l : list string) :
  Sorted (fun a b => String.leb a b = true) (sorted l).
Proof.
  induction l as [|x l IH]; simpl; [constructor|].
  now apply insert_sorted_Sorted.
Qed.

Section MainFacts.

Variable findall_links : string -> list string.
Variable format_4f : float -> string.

(** Printing the ranks of pages that are keys adds one line per page, in
    the order given, and cannot fail. *)
Lemma print_ranks_lines (ranks : dict float) :
  forall (pages : list Page) (out : list string),
    incl pages (keys ranks) ->
    exists lines,
      print_ranks format_4f ranks pages out = (out ++ lines, ret tt)
      /\ Forall2
           (fun page line =>
              exists rank,
                dict_get ranks page = Some rank
                /\ line = rank_line format_4f page rank)
           pages lines.
Proof.
  induction pages as [|page pages IH]; intros out Hincl.
  - exists []. simpl. rewrite app_nil_r. split; [reflexivity | constructor].
  - destruct (getitem_present ranks page) as [rank [Hitem Hget]].
    { apply Hincl. now left. }
    destruct (IH (out ++ [rank_line format_4f page rank])) as [lines [Hrun Hall]].
    { intros x Hx. apply Hincl. now right. }
    exists (rank_line format_4f page rank :: lines). split.
    + cbn [print_ranks]. rewrite Hitem. cbv beta iota delta [ret].
      rewrite Hrun, <- app_assoc. reflexivity.
    + constructor; [now exists rank | assumption].
Qed.

Lemma rank_line_not_header (page : Page) (rank : float) :
  rank_line format_4f page rank <> iteration_header.
Proof. unfold rank_line, iteration_header. simpl. discriminate. Qed.

End MainFacts.

Lemma crawl_keys_NoDup (findall_links : string -> list string)
  (directory : list (string * option string)) (G : Corpus) :
  crawl findall_links directory = ret G -> NoDup (keys G).
Proof.
  intros Hrun. crawl_first_result Hrun pages Hfirst.
  pose proof (crawl_first_loop findall_links directory pages Hfirst) as Hself.
  pose proof (crawl_first_loop_keys findall_links directory pages Hfirst) as Hnd.
  apply (crawl_second_loop (keys pages)) in Hrun;
    [| apply incl_refl | reflexivity | assumption
     | intros x Hx Hnx; contradiction].
  destruct Hrun as [Hkeys _]. now rewrite Hkeys.
Qed.


Lemma Forall2_In_r {A B : Type} (R : A -> B -> Prop) (l : list A)
  (l' : list B) (y : B) :
  Forall2 R l l' -> In y l' -> exists x, In x l /\ R x y.
Proof.
  induction 1 as [|a b l l' Hab Hall IH]; intros Hin; [destruct Hin|].
  destruct Hin as [<-|Hin].
  - exists a. split; [now left | assumption].
  - destruct (IH Hin) as [x [Hx HR]]. exists x. split; [now right | assumption].
Qed.

(** With a directory argument that can be crawled and a sampler that
    returns, the program prints the sampling header and then one line per
    page of the corpus, the pages in increasing order of their names, each
    with its formatted rank; it then stops with [NotImplementedError]: the
    results of the iteration are never printed. *)
Theorem main_prints_sampled_ranks_then_fails :
  forall (findall_links : string -> list string)
         (format_4f : float -> string) (prog directory : string)
         (listdir : string -> option (list (string * option string)))
         (random : nat -> float) (entries : list (string * option string))
         (corpus : Corpus) (ranks : dict float),
    listdir directory = Some entries ->
    crawl findall_links entries = ret corpus ->
    sample_pagerank corpus DAMPING SAMPLES random = ret ranks ->
    exists lines,
      main findall_links format_4f [prog; directory] listdir random
      = (sampling_header :: lines, Raised NotImplementedError)
      /\ Forall2
           (fun page line =>
              exists rank,
                dict_get ranks page = Some rank
                /\ line = rank_line format_4f page rank)
           (sorted (keys corpus)) lines
      /\ Sorted (fun a b => String.leb a b = true) (sorted (keys corpus))
      /\ Permutation (sorted (keys corpus)) (keys corpus).
Proof.
  intros findall_links format_4f prog directory listdir random entries corpus
    ranks Hlist Hcrawl Hsample.
  destruct (sample_pagerank_returned_keys corpus DAMPING SAMPLES random ranks
              (crawl_keys_NoDup _ _ _ Hcrawl) Hsample)
    as [visited [Hranks Hkeys]].
  assert (Hk : keys ranks = keys corpus).
  { now rewrite Hranks, keys_map_rank_of. }
  destruct (print_ranks_lines format_4f ranks (sorted (keys ranks))
              [sampling_header])
    as [lines [Hprint Hlines]].
  { intros x Hx. eapply Permutation_in; [apply sorted_Permutation | exact Hx]. }
  exists lines. split; [|split; [|split]].
  - unfold main. cbn [len List.length Z.of_nat Z.eqb negb list_index nth_error].
    change (Z.of_nat 2 =? 2)%Z with true. cbn [negb bind ret].
    rewrite Hlist. cbn [bind ret]. rewrite Hcrawl.
    cbv beta iota delta [ret]. rewrite Hsample.
    cbv beta iota delta [ret]. rewrite Hprint. reflexivity.
  - now rewrite <- Hk.
  - apply sorted_Sorted.
  - apply sorted_Permutation.
Qed.

Lemma main_prints_sampled_ranks_then_fails_witness :
  exists lines,
    main example_findall (fun _ => "0.5000") ["pagerank.py"; "corpus0"]
      (fun _ => Some example_directory) (fun _ => 0.5%float)
    = (sampling_header :: lines, Raised NotImplementedError)
    /\ Permutation (sorted ["a.html"; "b.html"]) ["a.html"; "b.html"].
Proof.
  destruct (main_prints_sampled_ranks_then_fails example_findall
              (fun _ => "0.5000") "pagerank.py" "corpus0"
              (fun _ => Some example_directory) (fun _ => 0.5%float)
              example_directory
              [("a.html", ["b.html"]); ("b.html", ["a.html"])]
              [("a.html", 0.5%float); ("b.html", 0.5%float)])
    as [lines [Hmain [_ [_ Hperm]]]].
  - reflexivity.
  - vm_compute. reflexivity.
  - vm_compute. reflexivity.
  - exists lines. split; [exact Hmain | exact Hperm].
Defined.

(** Whatever the command line, the directory and the random stream, the
    program never finishes normally and never prints the header of the
    results of the iteration. *)
Theorem main_never_reports_iteration :
  forall (findall_links : string -> list string)
         (format_4f : float -> string) (argv : list string)
         (listdir : string -> option (list (string * option string)))
         (random : nat -> float),
    snd (main findall_links format_4f argv listdir random) <> Finished
    /\ ~ In iteration_header
           (fst (main findall_links format_4f argv listdir random)).
Proof.
  intros findall_links format_4f argv listdir random. unfold main.
  destruct (negb (len argv =? 2)%Z); [split; [discriminate | intros []]|].
  match goal with
  | |- context [match ?c with inl _ => _ | inr _ => _ end] =>
      destruct c as [e|corpus]
  end; [split; [discriminate | intros []]|].
  destruct (sample_pagerank corpus DAMPING SAMPLES random) as [e|ranks];
    [split; [discriminate | intros []]|].
  destruct (print_ranks_lines format_4f ranks (sorted (keys ranks))
              [sampling_header])
    as [lines [Hprint Hlines]].
  { intros x Hx. eapply Permutation_in; [apply sorted_Permutation | exact Hx]. }
  rewrite Hprint. cbn [ret iterate_pagerank raise fst snd].
  split; [discriminate|].
  intros [Hhead|Hin].
  - vm_compute in Hhead. discriminate.
  - destruct (Forall2_In_r _ _ _ _ Hlines Hin) as [page [_ [rank [_ Hline]]]].
    symmetry in Hline. revert Hline. apply rank_line_not_header.
Qed.



(* ================================================================= *)
(** ** The weighted draw, and the walk at damping factor 1 *)

Section AccumulateFacts.

Context {num : Type} {F : PyFloat num}.

Lemma accumulate_from_nth (ws : list num) :
  forall (acc : num) (i : nat) (b : num),
    nth_error (accumulate_from acc ws) i = Some b ->
    exists a w,
      nth_error (acc :: accumulate_from acc ws) i = Some a
      /\ nth_error ws i = Some w
      /\ b = fadd a w.
Proof.
  induction ws as [|w0 ws IH]; intros acc i b Hb.
  - destruct i; discriminate.
  - destruct i as [|i]; simpl in Hb.
    + injection Hb as <-. exists acc, w0. repeat split.
    + destruct (IH _ _ _ Hb) as [a [w [Ha [Hw Hb']]]].
      exists a, w. repeat split; assumption.
Qed.

(** Each running sum is the one before it plus the weight at its index. *)
Lemma accumulate_step (ws : list num) (i : nat) (b : num) :
  nth_error (accumulate ws) (S i) = Some b ->
  exists a w,
    nth_error (accumulate ws) i = Some a
    /\ nth_error ws (S i) = Some w
    /\ b = fadd a w.
Proof.
  destruct ws as [|w0 ws]; [discriminate|]. simpl. intros Hb.
  destruct (accumulate_from_nth ws w0 i b Hb) as [a [w [Ha [Hw Hb']]]].
  exists a, w. repeat split; assumption.
Qed.

Lemma accumulate_first (ws : list num) (b : num) :
  nth_error (accumulate ws) 0 = Some b -> nth_error ws 0 = Some b.
Proof. destruct ws as [|w0 ws]; [discriminate | exact (fun H => H)]. Qed.

End AccumulateFacts.

Lemma list_index_Some {A : Type} (l : list A) (i : nat) (x : A) :
  list_index l i = ret x <-> nth_error l i = Some x.
Proof.
  unfold list_index. destruct (nth_error l i); split; intros H;
    try discriminate; now injection H as ->.
Qed.

(** The bisection ends on the index whose running sum is the first one
    above the target. *)
Lemma bisect_loop_bracket (a : list Q) (x : Q) :
  forall (fuel lo hi i : nat),
    (hi - lo <= fuel)%nat ->
    (lo <= hi)%nat ->
    (lo = O \/ exists c, nth_error a (lo - 1) = Some c /\ (c <= x)%Q) ->
    (exists c, nth_error a hi = Some c /\ (x < c)%Q) ->
    bisect_loop fuel a x lo hi = ret i ->
    (i = O \/ exists c, nth_error a (i - 1) = Some c /\ (c <= x)%Q)
    /\ (exists c, nth_error a i = Some c /\ (x < c)%Q).
Proof.
  induction fuel as [|fuel IH]; intros lo hi i Hfuel Hle Hlo Hhi Hrun;
    cbn [bisect_loop] in Hrun.
  - injection Hrun as <-. replace hi with lo in Hhi by lia. now split.
  - destruct (lo <? hi)%nat eqn:E.
    + apply Nat.ltb_lt in E. pose proof (midpoint_bounds lo hi E) as Hm.
      destruct (list_index a ((lo + hi) / 2)) as [e|am] eqn:Ham;
        cbn [bind] in Hrun; [discriminate|].
      apply list_index_Some in Ham.
      cbn [flt exactQ] in Hrun.
      destruct (Qle_bool am x) eqn:Ecmp; cbn [negb] in Hrun.
      * apply Qle_bool_iff in Ecmp.
        apply (IH (S ((lo + hi) / 2)) hi i); try assumption; try lia.
        right. exists am. split; [|assumption].
        now replace (S ((lo + hi) / 2) - 1)%nat with ((lo + hi) / 2)%nat by lia.
      * assert (Hlt : (x < am)%Q).
        { apply Qnot_le_lt. intros H. apply Qle_bool_iff in H. congruence. }
        apply (IH lo ((lo + hi) / 2)%nat i); try assumption; try lia.
        now exists am.
    + apply Nat.ltb_ge in E. injection Hrun as <-.
      replace hi with lo in Hhi by lia. now split.
Qed.

(** In exact arithmetic, with the value of [random()] in [0, 1),
    [random.choices] returns an item whose weight is strictly positive. *)
Lemma choices_positive_weight (population : list Page) (weights : list Q)
  (r : Q) (x : Page) :
  (0 <= r)%Q -> (r < 1)%Q ->
  choices population weights r = ret x ->
  exists i w,
    nth_error population i = Some x
    /\ nth_error weights i = Some w
    /\ (0 < w)%Q.
Proof.
  intros Hr0 Hr1. unfold choices.
  destruct (negb (List.length (accumulate weights) =? List.length population)%nat)
    eqn:Elen; [discriminate|].
  apply negb_false_iff, Nat.eqb_eq in Elen.
  destruct (list_last (accumulate weights)) as [e|c] eqn:Hlast; cbn [bind];
    [discriminate|].
  cbn [fadd fle fmul of_int isfinite exactQ negb].
  change (inject_Z 0) with 0%Q.
  destruct (Qle_bool (c + 0) 0) eqn:Etot; [discriminate|].
  assert (Hpos : (0 < c)%Q).
  { apply Qnot_le_lt. intros H.
    assert (H' : (c + 0 <= 0)%Q) by lra.
    apply Qle_bool_iff in H'. congruence. }
  destruct (bisect (accumulate weights) (r * (c + 0))%Q 0
              (List.length population - 1)) as [e|i] eqn:Hbis; cbn [bind];
    [discriminate|].
  intros Hx. apply list_index_Some in Hx.
  assert (Hc : nth_error (accumulate weights) (List.length population - 1)
               = Some c).
  { unfold list_last in Hlast. rewrite <- Elen.
    destruct (accumulate weights); [discriminate|].
    now apply list_index_Some in Hlast. }
  assert (Hx0 : (0 <= r * (c + 0))%Q).
  { apply Qmult_le_0_compat; lra. }
  assert (Hx1 : (r * (c + 0) < c)%Q).
  { assert (H : (r * c < 1 * c)%Q) by (apply Qmult_lt_compat_r; assumption).
    lra. }
  unfold bisect in Hbis.
  apply bisect_loop_bracket in Hbis; [| lia | lia | now left | now exists c].
  destruct Hbis as [Hbelow [ci [Hci Habove]]].
  destruct i as [|j].
  - apply accumulate_first in Hci. exists O, ci. repeat split; try assumption.
    lra.
  - destruct (accumulate_step weights j ci Hci) as [a [w [Ha [Hw Hsum]]]].
    destruct Hbelow as [Hz|[c' [Hc' Hle]]]; [discriminate|].
    replace (S j - 1)%nat with j in Hc' by lia.
    rewrite Ha in Hc'. injection Hc' as <-.
    exists (S j), w. repeat split; try assumption.
    cbn [fadd exactQ] in Hsum. subst ci. lra.
Qed.

Lemma nth_error_keys_values {V : Type} (d : dict V) (i : nat) (k : Page)
  (v : V) :
  nth_error (keys d) i = Some k ->
  nth_error (values d) i = Some v ->
  In (k, v) d.
Proof.
  unfold keys, values. rewrite !nth_error_map.
  destruct (nth_error d i) as [[k' v']|] eqn:E; [|discriminate].
  simpl. intros [= ->] [= ->]. eapply nth_error_In. eassumption.
Qed.

Lemma dict_get_map_rank_of {num : Type} {F : PyFloat num} (n : Z)
  (visited : dict Z) (q : Page) :
  dict_get (map (rank_of n) visited) q
  = option_map (fun c => fdiv (of_int c) (of_int n)) (dict_get visited q).
Proof.
  induction visited as [|[k c] visited IH]; simpl; [reflexivity|].
  destruct (String.eqb q k); [reflexivity | exact IH].
Qed.

(** With the damping factor 1 the surfer only follows links. In exact
    arithmetic, on a Link Graph in which every page has a link, with random
    values in [0, 1), a page that no page links to is never visited: its
    rank is 0 (the starting page is not counted as a visit). *)
Theorem sample_pagerank_follows_links_at_damping_one :
  forall (G : Corpus) (n : Z) (random : nat -> Q) (q : Page),
    link_graph_ok G = true ->
    (forall p L, dict_get G p = Some L -> L <> []) ->
    (forall p L, dict_get G p = Some L -> ~ In q L) ->
    In q (keys G) ->
    (forall i, 0 <= random i /\ random i < 1)%Q ->
    (1 <= n)%Z ->
    exists ranks : dict Q,
      sample_pagerank G 1%Q n random = ret ranks
      /\ exists v, dict_get ranks q = Some v /\ (v == 0)%Q.
Proof.
  intros G n random q Hok Hlinked Hnolink Hq Hrandom Hn.
  destruct (link_graph_ok_keys G Hok) as [Hne Hnd].
  destruct (sample_pagerank_exact G 1%Q n random Hok Hn)
    as [visited0 [Hrun _]].
  exists (map (rank_of n) visited0). split; [exact Hrun|].
  unfold sample_pagerank in Hrun.
  destruct (truediv_ii 1 (len G)) as [e|p]; cbn [bind] in Hrun; [discriminate|].
  destruct (choices (keys G) (repeat p (List.length G)) (random O))
    as [e|first] eqn:Hfirst; cbn [bind] in Hrun; [discriminate|].
  apply choices_In in Hfirst.
  rewrite fold_left_init_counters in Hrun;
    [| assumption | intros k _; simpl; tauto].
  cbn [app] in Hrun.
  match type of Hrun with
  | bind ?walk _ = _ => destruct walk as [e|[choice visited]] eqn:Hwalk
  end; cbn [bind snd] in Hrun; [discriminate|].
  apply (for_range_invariant
           (fun st : Page * dict Z =>
              In (fst st) (keys G)
              /\ keys (snd st) = keys G
              /\ dict_get (snd st) q = Some 0%Z)) in Hwalk.
  - destruct Hwalk as [_ [Hkeys Hzero]]. simpl in Hkeys, Hzero.
    rewrite (ranks_loop visited n) with (sub := visited) in Hrun.
    + injection Hrun as Hrun. rewrite <- Hrun. simpl.
      rewrite dict_get_map_rank_of, Hzero. simpl.
      eexists. split; [reflexivity|].
      unfold Qdiv. change (inject_Z 0) with 0%Q. ring.
    + lia.
    + intros k c Hkc. apply NoDup_keys_dict_get; [now rewrite Hkeys | assumption].
    + now rewrite Hkeys.
    + intros k _. simpl. tauto.
  - intros [c v] i [c' v'] [Hc [Hkeys Hzero]] Hbody. simpl in Hc, Hkeys, Hzero.
    simpl.
    destruct (dict_get G c) as [L|] eqn:HL.
    2:{ apply dict_get_None in HL. contradiction. }
    destruct (transition_model_linked_get G c 1%Q L HL (Hlinked c L HL))
      as [prob [Hprob Hlook]].
    destruct (transition_model_keys G c 1%Q Hok Hc) as [prob' [Hprob' Hperm]].
    rewrite Hprob in Hprob'. injection Hprob' as <-.
    rewrite Hprob in Hbody. cbn [bind ret] in Hbody.
    destruct (choices (keys prob) (values prob) (random (S i))) as [e|next]
      eqn:Hnext; cbn [bind] in Hbody; [discriminate|].
    destruct (choices_positive_weight _ _ _ _ (proj1 (Hrandom (S i)))
                (proj2 (Hrandom (S i))) Hnext)
      as [j [w [Hj [Hw Hpos]]]].
    pose proof (nth_error_keys_values prob j next w Hj Hw) as Hentry.
    apply NoDup_keys_dict_get in Hentry.
    2:{ eapply Permutation_NoDup; [apply Permutation_sym|]; eassumption. }
    rewrite Hlook in Hentry.
    assert (HnextL : In next L).
    { destruct (mem next L) eqn:Em; [now apply mem_In|].
      destruct (mem next (keys G)); [|discriminate].
      injection Hentry as Hentry. exfalso.
      unfold random_prob in Hentry. cbn [fdiv fsub of_int exactQ] in Hentry.
      assert (Hz : (w == 0)%Q).
      { rewrite <- Hentry. change (inject_Z 1) with 1%Q. unfold Qdiv. ring. }
      rewrite Hz in Hpos. now apply Qlt_irrefl in Hpos. }
    destruct (link_graph_ok_links G c L Hok HL) as [_ [_ Hincl]].
    unfold getitem in Hbody.
    destruct (dict_get v next) as [count|] eqn:Hget; cbn [bind ret] in Hbody;
      [|discriminate].
    injection Hbody as <- <-. split; [now apply Hincl|]. split.
    + rewrite keys_dict_set_present; [assumption|].
      eapply dict_get_Some_In. eassumption.
    + rewrite dict_get_set.
      destruct (String.eqb q next) eqn:E; [|assumption].
      apply String.eqb_eq in E. subst next.
      exfalso. now apply (Hnolink c L HL).
  - simpl. split; [assumption|]. split; [apply keys_map_pair|].
    rewrite dict_get_map_const. apply mem_In in Hq. now rewrite Hq.
Qed.

Lemma sample_pagerank_follows_links_at_damping_one_witness :
  exists ranks : dict Q,
    sample_pagerank entry_graph 1%Q 4 (fun _ => (1 # 2)%Q) = ret ranks
    /\ exists v, dict_get ranks "1.html" = Some v /\ (v == 0)%Q.
Proof.
  apply (sample_pagerank_follows_links_at_damping_one entry_graph 4
           (fun _ => (1 # 2)%Q) "1.html").
  - reflexivity.
  - intros p L H. simpl in H.
    repeat match type of H with
           | (if ?b then _ else _) = _ => destruct b
           end; try discriminate; injection H as <-; discriminate.
  - intros p L H. simpl in H.
    repeat match type of H with
           | (if ?b then _ else _) = _ => destruct b
           end; try discriminate; injection H as <-; simpl;
      intros [E|[]]; discriminate.
  - simpl. tauto.
  - intros i. split; [discriminate | reflexivity].
  - lia.
Defined.

(** The two ends of the damping range, in exact arithmetic, for a page with
    links. With the damping factor 0 the links play no part: every page of
    the graph gets [1/N]. With the damping factor 1 only the links count:
    every linked page gets [1/|L|] and every other page of the graph gets
    0. *)
Theorem transition_model_at_damping_zero_and_one :
  forall (G : Corpus) (page : Page) (L : pyset),
    dict_get G page = Some L ->
    L <> [] ->
    (exists dist : dict Q,
        transition_model G page 0%Q = ret dist
        /\ forall q, In q (keys G) ->
             exists v, dict_get dist q = Some v
                       /\ (v == 1 / inject_Z (len G))%Q)
    /\ (exists dist : dict Q,
           transition_model G page 1%Q = ret dist
           /\ (forall q, In q L ->
                 exists v, dict_get dist q = Some v
                           /\ (v == 1 / inject_Z (len L))%Q)
           /\ (forall q, In q (keys G) -> ~ In q L ->
                 exists v, dict_get dist q = Some v /\ (v == 0)%Q)).
Proof.
  intros G page L Hget HneL.
  assert (Hne : G <> []) by (destruct G; discriminate).
  pose proof (inject_len_pos G Hne) as HN.
  pose proof (inject_len_pos L HneL) as HL.
  assert (HN' : ~ (inject_Z (len G) == 0)%Q).
  { intros H. rewrite H in HN. now apply Qlt_irrefl in HN. }
  assert (HL' : ~ (inject_Z (len L) == 0)%Q).
  { intros H. rewrite H in HL. now apply Qlt_irrefl in HL. }
  split.
  - destruct (transition_model_linked_get G page 0%Q L Hget HneL)
      as [dist [Hrun Hlook]].
    exists dist. split; [assumption|].
    intros q Hq. rewrite Hlook. apply mem_In in Hq. rewrite Hq.
    unfold linked_prob, random_prob. cbn [fadd fdiv fsub of_int exactQ].
    change (inject_Z 1) with 1%Q.
    destruct (mem q L); eexists; (split; [reflexivity|]); field;
      try split; assumption.
  - destruct (transition_model_linked_get G page 1%Q L Hget HneL)
      as [dist [Hrun Hlook]].
    exists dist. split; [assumption|]. split.
    + intros q Hq. rewrite Hlook. apply mem_In in Hq. rewrite Hq.
      unfold linked_prob, random_prob. cbn [fadd fdiv fsub of_int exactQ].
      change (inject_Z 1) with 1%Q.
      eexists. split; [reflexivity|]. field. now split.
    + intros q Hq Hnq. rewrite Hlook.
      apply mem_In in Hq. apply mem_not_In in Hnq. rewrite Hq, Hnq.
      unfold random_prob. cbn [fdiv fsub of_int exactQ].
      change (inject_Z 1) with 1%Q.
      eexists. split; [reflexivity|]. field. assumption.
Qed.

Lemma transition_model_at_damping_zero_and_one_witness :
  exists dist : dict Q,
    transition_model entry_graph "1.html" 1%Q = ret dist
    /\ exists v, dict_get dist "3.html" = Some v /\ (v == 0)%Q.
Proof.
  destruct (transition_model_at_damping_zero_and_one entry_graph "1.html"
              ["2.html"])
    as [_ [dist [Hrun [_ Hrest]]]].
  - reflexivity.
  - discriminate.
  - exists dist. split; [exact Hrun|].
    apply Hrest.
    + simpl. tauto.
    + simpl. intros [H|[]]. discriminate.
Defined.
